(** * DnaFeaturesViewer: features, records and their interval arithmetic

    A shallow embedding of [dna_features_viewer/GraphicFeature.py] and
    [dna_features_viewer/GraphicRecord/GraphicRecord.py], and a model of
    the level-assignment pass as the specification describes it, followed
    by the properties of cropping, splitting, overlap detection, circular
    coordinates and level assignment.

    Conventions of the embedding:
    - Python integers are [Z]; the floating-point midpoints of
      [x_center] and [x_center_circular] are halves of integers, and are
      modelled twice: in [Q], as the numbers of exact arithmetic, and in
      [Binary64], as the binary64 numbers that Python computes; the two
      agree on coordinates of at most [2 ^ 50] in magnitude
      ([x_center_binary64]);
    - [None] is [option]'s [None];
    - a call that may raise returns a [result];
    - a method that reads or assigns [self] of a record is a function from
      the record before the call to the record after it and the outcome. *)

From Stdlib Require Import ZArith QArith Qpower Lia Permutation SpecFloat.
From stdpp Require Import base option list sorting strings.

Local Open Scope Z_scope.

(** ** The fragment of Python the code relies on *)

Inductive exn : Type :=
  | ValueError (msg : string)
  | TypeError.

Inductive result (A : Type) : Type :=
  | Ok (a : A)
  | Raise (e : exn).
Arguments Ok {A} a.
Arguments Raise {A} e.

#[global] Instance result_ret : MRet result := fun A a => Ok a.
#[global] Instance result_bind : MBind result := fun A B k m =>
  match m with
  | Ok a => k a
  | Raise e => Raise e
  end.

(** A value carried in the free-form dictionaries of a feature. *)
Inductive pyval : Type :=
  | PInt (z : Z)
  | PStr (s : string)
  | PNone.

(** Rich comparison: [==] never raises on the values used here, [<] raises
    [TypeError] when one side is [None]. *)
Class PyOrd (A : Type) : Type := {
  py_eq : A -> A -> bool;
  py_lt : A -> A -> result bool
}.

#[global] Instance PyOrd_int : PyOrd Z := {
  py_eq := Z.eqb;
  py_lt x y := Ok (x <? y)
}.

#[global] Instance PyOrd_str : PyOrd string := {
  py_eq := String.eqb;
  py_lt x y := Ok (String.ltb x y)
}.

(** An integer (or string) that may be [None]. *)
#[global] Instance PyOrd_optional {A} `{PyOrd A} : PyOrd (option A) := {
  py_eq x y :=
    match x, y with
    | Some a, Some b => py_eq a b
    | None, None => true
    | _, _ => false
    end;
  py_lt x y :=
    match x, y with
    | Some a, Some b => py_lt a b
    | _, _ => Raise TypeError
    end
}.

(** Tuples compare on the first position where they differ. *)
#[global] Instance PyOrd_tuple {A B} `{PyOrd A} `{PyOrd B} : PyOrd (A * B) := {
  py_eq x y := py_eq (fst x) (fst y) && py_eq (snd x) (snd y);
  py_lt x y :=
    if py_eq (fst x) (fst y) then
      if py_eq (snd x) (snd y) then Ok false else py_lt (snd x) (snd y)
    else py_lt (fst x) (fst y)
}.

(** [a > b] is [b < a] on these values. *)
Definition py_gt {A} `{PyOrd A} (a b : A) : result bool := py_lt b a.

(** [sorted]: a stable insertion sort, each new element placed before the
    first element it is smaller than. On a two-element list this makes the
    single comparison [l[1] < l[0]]. *)
Fixpoint py_insert {A} `{PyOrd A} (x : A) (l : list A) : result (list A) :=
  match l with
  | [] => Ok [x]
  | y :: l' =>
      b ← py_lt x y;
      if (b : bool) then Ok (x :: y :: l')
      else l'' ← py_insert x l'; Ok (y :: l'')
  end.

Definition sorted {A} `{PyOrd A} (l : list A) : result (list A) :=
  foldl (fun acc x => acc' ← acc; py_insert x acc') (Ok []) l.

(** [a, b = l] *)
Definition unpack2 {A} (l : list A) : result (A * A) :=
  match l with
  | [a; b] => Ok (a, b)
  | _ => Raise (ValueError "wrong number of values to unpack")
  end.

(** [seq[s:e]] on a string, with Python's treatment of negative and
    overlong indices. *)
Definition slice_index (len i : Z) : Z :=
  if i <? 0 then Z.max 0 (i + len) else Z.min i len.

Definition slice (seq : string) (s e : Z) : string :=
  let len := Z.of_nat (String.length seq) in
  let s' := slice_index len s in
  let e' := slice_index len e in
  String.substring (Z.to_nat s') (Z.to_nat (e' - s')) seq.

(** ** GraphicFeature.py *)

Module GraphicFeature.

Record t : Type := mk {
  start : Z;
  end_ : Z;
  strand : option Z;
  label : option string;
  color : string;
  linecolor : string;
  data : list (string * pyval);
  thickness : Z;
  linewidth : Q;
  box_linewidth : Z;
  box_color : option string;
  fontdict : list (string * pyval);
  html : option string;
  open_left : bool;
  open_right : bool
}.

(** [__init__] with its defaults for everything but the coordinates,
    the strand and the label. *)
Definition init (start end_ : Z) (strand : option Z) (label : option string) : t :=
  {| start := start; end_ := end_; strand := strand; label := label;
     color := "#000080"; linecolor := "#000000"; data := [];
     thickness := 14; linewidth := 1%Q; box_linewidth := 1;
     box_color := Some "auto"; fontdict := [("fontsize", PInt 11)];
     html := None; open_left := false; open_right := false |}.

Definition set_start (x : Z) (f : t) : t :=
  mk x (end_ f) (strand f) (label f) (color f) (linecolor f) (data f)
     (thickness f) (linewidth f) (box_linewidth f) (box_color f)
     (fontdict f) (html f) (open_left f) (open_right f).

Definition set_end (x : Z) (f : t) : t :=
  mk (start f) x (strand f) (label f) (color f) (linecolor f) (data f)
     (thickness f) (linewidth f) (box_linewidth f) (box_color f)
     (fontdict f) (html f) (open_left f) (open_right f).

Definition set_open_left (b : bool) (f : t) : t :=
  mk (start f) (end_ f) (strand f) (label f) (color f) (linecolor f) (data f)
     (thickness f) (linewidth f) (box_linewidth f) (box_color f)
     (fontdict f) (html f) b (open_right f).

Definition set_open_right (b : bool) (f : t) : t :=
  mk (start f) (end_ f) (strand f) (label f) (color f) (linecolor f) (data f)
     (thickness f) (linewidth f) (box_linewidth f) (box_color f)
     (fontdict f) (html f) (open_left f) b.

(** The fields that neither [crop] nor [split_in_two] assigns. *)
Definition same_metadata (f g : t) : Prop :=
  strand g = strand f /\ label g = label f /\ color g = color f /\
  linecolor g = linecolor f /\ data g = data f /\
  thickness g = thickness f /\ linewidth g = linewidth f /\
  box_linewidth g = box_linewidth f /\ box_color g = box_color f /\
  fontdict g = fontdict f /\ html g = html f.

(** [deepcopy(self)]: features are values here, the copy is the value. *)
Definition deepcopy (f : t) : t := f.
Arguments deepcopy f /.

Definition split_in_two (self : t) (x_coord : Z) : t * t :=
  let copy1 := deepcopy self in
  let copy2 := deepcopy self in
  let copy1 := set_end x_coord copy1 in
  let copy2 := set_start (x_coord + 1) copy2 in
  (copy1, copy2).

Definition crop (self : t) (window : Z * Z) : option t :=
  let '(s, e) := window in
  if (s >? end_ self) || (e <? start self) then None
  else
    let copy := deepcopy self in
    let copy :=
      if s >? start self then set_open_left true (set_start s copy)
      else copy in
    let copy :=
      if e <? end_ self then set_open_right true (set_end e copy)
      else copy in
    Some copy.

(** The block that builds [self_ranges] (and, verbatim, [other_ranges]). *)
Definition ranges (f : t) (circular_seq_length : option Z)
  : list (Z * option Z) :=
  if start f <? end_ f then [] ++ [(start f, Some (end_ f))]
  else ([] ++ [(start f, circular_seq_length)]) ++ [(0, Some (end_ f))].

Definition need_circular_seq_length : string :=
  "need `circular_seq_length` if feature start is greater than end i.e., spanning origin".

Definition overlaps_with (self other : t) (circular_seq_length : option Z)
  : result bool :=
  if ((start self >? end_ self) || (start other >? end_ other))
     && bool_decide (circular_seq_length = None)
  then Raise (ValueError need_circular_seq_length)
  else
    let self_ranges := ranges self circular_seq_length in
    let other_ranges := ranges other circular_seq_length in
    foldl (fun acc self_range =>
      foldl (fun acc other_range =>
        overlaps ← acc;
        l ← sorted [self_range; other_range];
        '(loc1, loc2) ← unpack2 l;
        b ← py_gt (snd loc1) (Some (fst loc2));
        Ok (if (b : bool) then true else overlaps))
      acc other_ranges)
    (Ok false) self_ranges.

Definition length (self : t) : Z := Z.abs (end_ self - start self).

Definition length_circular (self : t) (sequence_length : Z) : Z :=
  if start self >? end_ self
  then sequence_length - start self + end_ self
  else end_ self - start self.

(** The midpoint in exact arithmetic; [Binary64.x_center] is the float. *)
Definition x_center (self : t) : Q :=
  (0.5 * inject_Z (start self + end_ self - 1))%Q.

(** The circular midpoint in exact arithmetic; [Binary64.x_center_circular]
    is the float. *)
Definition x_center_circular (self : t) (sequence_length : Z) : Q :=
  let feature_length := length_circular self sequence_length in
  let mid_point :=
    (inject_Z feature_length * 0.5 + inject_Z (start self))%Q in
  if Qle_bool mid_point (inject_Z sequence_length) then mid_point
  else (mid_point - inject_Z sequence_length)%Q.

End GraphicFeature.

(** ** GraphicFeature.py: the midpoints in floating point *)

(** A Python [float] is an IEEE 754 binary64 number: a [spec_float] with a
    precision of 53 bits and [emax = 1024], whose operations round to
    nearest, ties to even. *)
Module Binary64.

Abbreviation prec := 53.
Abbreviation emax := 1024.

(** The conversion Python applies to the integer operand of a float
    operation: the nearest binary64 number. [None] stands for the
    [OverflowError] raised when that number is not finite. *)
Definition of_int (m : Z) : option spec_float :=
  match binary_normalize prec emax m 0 false with
  | S754_infinity _ => None
  | x => Some x
  end.

(** The literal [0.5]. *)
Definition half : spec_float := S754_finite false 4503599627370496 (-53).

Definition is_finite (x : spec_float) : bool :=
  match x with
  | S754_zero _ | S754_finite _ _ _ => true
  | _ => false
  end.

(** The number a finite float stands for. *)
Definition value (x : spec_float) : Q :=
  match x with
  | S754_finite s m e => (inject_Z (cond_Zopp s (Zpos m)) * 2 ^ e)%Q
  | _ => 0%Q
  end.

(** [x <= n] on a float and an integer: Python compares the two numbers
    exactly, without converting the integer. *)
Definition le_int (x : spec_float) (n : Z) : bool :=
  match x with
  | S754_nan => false
  | S754_infinity s => s
  | _ => Qle_bool (value x) (inject_Z n)
  end.

Definition x_center (self : GraphicFeature.t) : option spec_float :=
  x ← of_int (GraphicFeature.start self + GraphicFeature.end_ self - 1);
  Some (SFmul prec emax half x).

Definition x_center_circular (self : GraphicFeature.t) (sequence_length : Z)
  : option spec_float :=
  let feature_length := GraphicFeature.length_circular self sequence_length in
  x ← of_int feature_length;
  let product := SFmul prec emax x half in
  s ← of_int (GraphicFeature.start self);
  let mid_point := SFadd prec emax product s in
  if le_int mid_point sequence_length then Some mid_point
  else n ← of_int sequence_length; Some (SFsub prec emax mid_point n).

End Binary64.

(** ** GraphicRecord/GraphicRecord.py *)

Module GraphicRecord.

Record t : Type := mk {
  features : list GraphicFeature.t;
  sequence_length : Z;
  feature_level_height : Q;
  sequence : option string;
  first_index : Z;
  plots_indexing : string;
  labels_spacing : Z
}.

(** A method: the record before the call to the record after it and the
    outcome of the call. *)
Definition method (A : Type) : Type := t -> t * result A.

(** [__init__]; [plots_indexing] and [labels_spacing] are given their
    defaults by every caller in this file. *)
Definition init (sequence_length : option Z) (sequence : option string)
    (features : list GraphicFeature.t) (feature_level_height : Q)
    (first_index : Z) : result t :=
  sequence_length ←
    match sequence_length with
    | Some n => Ok n
    | None =>
        match sequence with
        | Some sq => Ok (Z.of_nat (String.length sq))
        | None => Raise TypeError
        end
    end;
  Ok {| features := features; sequence_length := sequence_length;
        feature_level_height := feature_level_height;
        sequence := sequence; first_index := first_index;
        plots_indexing := "biopython"; labels_spacing := 8 |}.

Definition span (self : t) : Z * Z :=
  (first_index self, first_index self + sequence_length self).

Definition set_features (fs : list GraphicFeature.t) (self : t) : t :=
  mk fs (sequence_length self) (feature_level_height self) (sequence self)
     (first_index self) (plots_indexing self) (labels_spacing self).

Definition crop (window : Z * Z) : method t := fun self =>
  let '(s, e) := window in
  if (s <? 0) || (e >=? sequence_length self)
  then (self, Raise (ValueError "out-of-bound cropping"))
  else
    let new_features :=
      foldl (fun new_features f =>
               match GraphicFeature.crop f window with
               | Some cropped_feature => new_features ++ [cropped_feature]
               | None => new_features
               end) [] (features self) in
    (self,
     init (Some (e - s))
          (match sequence self with
           | Some sq => Some (slice sq s e)
           | None => None
           end)
          new_features (feature_level_height self) (first_index self + s)).

Definition shift (d : Z) (f : GraphicFeature.t) : GraphicFeature.t :=
  GraphicFeature.set_end (GraphicFeature.end_ f + d)
    (GraphicFeature.set_start (GraphicFeature.start f + d) f).

Definition split_overflowing_features_circularly : method unit := fun self =>
  let new_features :=
    foldl (fun new_features f =>
             if (GraphicFeature.start f <? 0) && (0 <? GraphicFeature.end_ f)
             then
               let '(f1, f2) := GraphicFeature.split_in_two f (-1) in
               let f1 := shift (sequence_length self) f1 in
               new_features ++ [f1; f2]
             else if (GraphicFeature.start f <? sequence_length self)
                     && (sequence_length self <? GraphicFeature.end_ f)
             then
               let '(f1, f2) :=
                 GraphicFeature.split_in_two f (sequence_length self - 1) in
               let f2 := shift (- sequence_length self) f2 in
               new_features ++ [f1; f2]
             else new_features ++ [f])
          [] (features self) in
  (set_features new_features self, Ok tt).

End GraphicRecord.

(** ** Level assignment *)

Module Levels.

(** A feature together with its identity, the position it has in the
    record's list of features. *)
Abbreviation placed := (nat * GraphicFeature.t)%type.

(** Modelled from the spec: the state of the pass, which is the array of
    the last occupant of every open level and the level recorded for every
    feature placed so far. *)
Record state : Type := mk {
  occupants : list GraphicFeature.t;
  levels : list (placed * nat)
}.

(** Modelled from the spec: the stable order by start position, ties
    broken by original order, as an insertion after the elements that do
    not start later. *)
Definition insert_by_start (x : placed) : list placed -> list placed :=
  fix go (l : list placed) : list placed :=
    match l with
    | [] => [x]
    | y :: l' =>
        if GraphicFeature.start (snd x) <? GraphicFeature.start (snd y)
        then x :: y :: l'
        else y :: go l'
    end.

(** Modelled from the spec: the features in the order they are processed. *)
Definition sort_by_start (l : list placed) : list placed :=
  foldl (fun acc x => insert_by_start x acc) [] l.

(** Modelled from the spec: the lowest-numbered level whose occupant does
    not overlap the feature, if there is one. *)
Fixpoint first_free (circular_seq_length : option Z)
    (f : GraphicFeature.t) (occupants : list GraphicFeature.t)
  : result (option nat) :=
  match occupants with
  | [] => Ok None
  | o :: occupants' =>
      b ← GraphicFeature.overlaps_with o f circular_seq_length;
      if (b : bool)
      then r ← first_free circular_seq_length f occupants'; Ok (option_map S r)
      else Ok (Some 0%nat)
  end.

(** Modelled from the spec: one step of the pass, which puts the feature
    on the level found or opens a new level, and records its level. *)
Definition place (circular_seq_length : option Z) (st : state) (x : placed)
  : result state :=
  r ← first_free circular_seq_length (snd x) (occupants st);
  match r with
  | Some lv =>
      Ok {| occupants := <[lv := snd x]> (occupants st);
            levels := levels st ++ [(x, lv)] |}
  | None =>
      Ok {| occupants := occupants st ++ [snd x];
            levels := levels st ++ [(x, length (occupants st))] |}
  end.

(** Modelled from the spec: the loop over the sorted features. *)
Fixpoint place_all (circular_seq_length : option Z) (st : state)
    (xs : list placed) : result state :=
  match xs with
  | [] => Ok st
  | x :: xs' =>
      st' ← place circular_seq_length st x;
      place_all circular_seq_length st' xs'
  end.

(** Modelled from the spec: the level-assignment pass itself, which lives
    in a module of the repository other than the two embedded above.
    Features are processed by start position, ties in original order;
    an indexed array holds the last occupant of every open level; a
    feature goes to the lowest-numbered level whose occupant does not
    overlap it, or opens a new level. The overlap test is
    [GraphicFeature.overlaps_with], given the sequence length when the
    record is circular. The result is the level of every feature and the
    number of levels opened. *)
Definition compute_features_levels (circular_seq_length : option Z)
    (features : list GraphicFeature.t) : result (list (placed * nat) * nat) :=
  st ← place_all circular_seq_length {| occupants := []; levels := [] |}
        (sort_by_start (zip (seq 0 (length features)) features));
  Ok (levels st, length (occupants st)).

End Levels.

(** ** The test suite's records *)

(** [test_split_overflowing_features] *)
Definition test_split_record : GraphicRecord.t :=
  {| GraphicRecord.features :=
       [GraphicFeature.init 10 20 (Some 1) (Some "a");
        GraphicFeature.init 40 55 (Some 1) (Some "b");
        GraphicFeature.init (-20) 2 (Some 1) (Some "c")];
     GraphicRecord.sequence_length := 50;
     GraphicRecord.feature_level_height := 1%Q;
     GraphicRecord.sequence := None;
     GraphicRecord.first_index := 0;
     GraphicRecord.plots_indexing := "biopython";
     GraphicRecord.labels_spacing := 8 |}.

Definition location_and_label (f : GraphicFeature.t) : Z * Z * option string :=
  (GraphicFeature.start f, GraphicFeature.end_ f, GraphicFeature.label f).

(** ** Specification-side notions *)

(** The half-open span [[start, end)] of a feature. *)
Definition covers (f : GraphicFeature.t) (z : Z) : Prop :=
  GraphicFeature.start f <= z < GraphicFeature.end_ f.

(** The flags that mark a truncated side. *)
Definition same_open_flags (f g : GraphicFeature.t) : Prop :=
  GraphicFeature.open_left g = GraphicFeature.open_left f /\
  GraphicFeature.open_right g = GraphicFeature.open_right f.

(** Ranges of integers, ordered as Python orders pairs. *)
Definition range_lt (r1 r2 : Z * Z) : bool :=
  (fst r1 <? fst r2) || ((fst r1 =? fst r2) && (snd r1 <? snd r2)).

(** Strict overlap of two ranges: once sorted, the earlier one ends after
    the later one starts. *)
Definition strict_overlap (r1 r2 : Z * Z) : bool :=
  let '(earlier, later) := if range_lt r2 r1 then (r2, r1) else (r1, r2) in
  snd earlier >? fst later.

(** Some range of the first decomposition strictly overlaps some range of
    the second. *)
Definition ranges_overlap (l1 l2 : list (Z * Z)) : bool :=
  existsb (fun r1 => existsb (fun r2 => strict_overlap r1 r2) l2) l1.

(** The decomposition of a feature on a sequence of length [n]: one range,
    or the two ranges on either side of the origin. *)
Definition decompose (f : GraphicFeature.t) (n : Z) : list (Z * Z) :=
  if GraphicFeature.start f <? GraphicFeature.end_ f
  then [(GraphicFeature.start f, GraphicFeature.end_ f)]
  else [(GraphicFeature.start f, n); (0, GraphicFeature.end_ f)].

(** A range with integer bounds, as [overlaps_with] builds it. *)
Definition with_int_bound (r : Z * Z) : Z * option Z := (fst r, Some (snd r)).

(** The outcome is not a [ValueError]. *)
Definition not_value_error {A} (r : result A) : Prop :=
  match r with
  | Raise (ValueError _) => False
  | _ => True
  end.

(** What the pass puts in place of one feature of a record of length [n]. *)
Inductive split_of (n : Z) (f : GraphicFeature.t) : list GraphicFeature.t -> Prop :=
  | split_at_origin :
      GraphicFeature.start f < 0 < GraphicFeature.end_ f ->
      split_of n f
        [GraphicRecord.shift n (fst (GraphicFeature.split_in_two f (-1)));
         snd (GraphicFeature.split_in_two f (-1))]
  | split_at_end :
      ~ GraphicFeature.start f < 0 < GraphicFeature.end_ f ->
      GraphicFeature.start f < n < GraphicFeature.end_ f ->
      split_of n f
        [fst (GraphicFeature.split_in_two f (n - 1));
         GraphicRecord.shift (- n) (snd (GraphicFeature.split_in_two f (n - 1)))]
  | split_kept :
      ~ GraphicFeature.start f < 0 < GraphicFeature.end_ f ->
      ~ GraphicFeature.start f < n < GraphicFeature.end_ f ->
      split_of n f [f].

(** Both coordinates of a feature lie in [[0, n)]. *)
Definition in_range (n : Z) (f : GraphicFeature.t) : Prop :=
  (0 <= GraphicFeature.start f < n) /\ (0 <= GraphicFeature.end_ f < n).

(** A feature that lies in [[0, n)], or crosses one edge of it and reaches
    no further than one sequence length beyond. *)
Definition splits_into_range (n : Z) (f : GraphicFeature.t) : Prop :=
  in_range n f \/
  (- n <= GraphicFeature.start f < 0 /\ 0 < GraphicFeature.end_ f < n) \/
  (0 <= GraphicFeature.start f < n /\ n < GraphicFeature.end_ f < 2 * n).

Definition split_one (n : Z) (f : GraphicFeature.t) : list GraphicFeature.t :=
  if (GraphicFeature.start f <? 0) && (0 <? GraphicFeature.end_ f)
  then
    let '(f1, f2) := GraphicFeature.split_in_two f (-1) in
    [GraphicRecord.shift n f1; f2]
  else if (GraphicFeature.start f <? n) && (n <? GraphicFeature.end_ f)
  then
    let '(f1, f2) := GraphicFeature.split_in_two f (n - 1) in
    [f1; GraphicRecord.shift (- n) f2]
  else [f].

(** A feature that does not reach the origin. *)
Definition linear (f : GraphicFeature.t) : Prop :=
  GraphicFeature.start f < GraphicFeature.end_ f.

(** The half-open intervals of two features share a position. *)
Definition meet (a b : GraphicFeature.t) : bool :=
  Z.max (GraphicFeature.start a) (GraphicFeature.start b)
  <? Z.min (GraphicFeature.end_ a) (GraphicFeature.end_ b).

Definition le_start (x y : Levels.placed) : Prop :=
  GraphicFeature.start (snd x) <= GraphicFeature.start (snd y).

Definition identity_of (e : Levels.placed * nat) : nat := fst (fst e).

(** The invariant of the placement loop, [b] being a bound on the starts of
    the features placed so far. *)
Record levels_inv (b : Z) (st : Levels.state) : Prop := {
  inv_linear : Forall linear (Levels.occupants st);
  inv_level : forall x lv, (x, lv) ∈ Levels.levels st ->
    exists o, Levels.occupants st !! lv = Some o /\
              GraphicFeature.end_ (snd x) <= GraphicFeature.end_ o;
  inv_occupant : exists O : list Levels.placed,
    snd <$> O = Levels.occupants st /\
    forall lv p, O !! lv = Some p -> (p, lv) ∈ Levels.levels st;
  inv_apart : forall x y lv,
    (x, lv) ∈ Levels.levels st -> (y, lv) ∈ Levels.levels st ->
    fst x <> fst y -> meet (snd x) (snd y) = false;
  inv_start : forall x lv, (x, lv) ∈ Levels.levels st ->
    GraphicFeature.start (snd x) <= b;
  inv_clique : exists C : list Levels.placed,
    length C = length (Levels.occupants st) /\
    NoDup (fst <$> C) /\
    (forall p, p ∈ C -> exists lv, (p, lv) ∈ Levels.levels st) /\
    exists t, forall p, p ∈ C ->
      GraphicFeature.start (snd p) <= t < GraphicFeature.end_ (snd p);
  inv_identities : NoDup (identity_of <$> Levels.levels st)
}.

(** *** Further notions *)

(** The comparison [overlaps_with] makes on one pair of ranges. *)
Definition pair_step (r1 r2 : Z * option Z) : result bool :=
  l ← sorted [r1; r2];
  '(loc1, loc2) ← unpack2 l;
  py_gt (snd loc1) (Some (fst loc2)).

(** The comparison on a pair of ranges raises. *)
Definition pair_raises (r1 r2 : Z * option Z) : bool :=
  match pair_step r1 r2 with Ok _ => false | Raise _ => true end.

(** The comparison on a pair of ranges answers true. *)
Definition pair_true (r1 r2 : Z * option Z) : bool :=
  match pair_step r1 r2 with Ok b => b | Raise _ => false end.

(** A position of the circle of length [n] that the feature occupies, the
    feature being decomposed as [overlaps_with] decomposes it. *)
Definition on_circle (n : Z) (f : GraphicFeature.t) (z : Z) : Prop :=
  Exists (fun r => fst r <= z < snd r) (decompose f n).

(** Both coordinates of a feature lie on the sequence, ends included. *)
Definition on_sequence (n : Z) (f : GraphicFeature.t) : Prop :=
  (0 <= GraphicFeature.start f <= n) /\ (0 <= GraphicFeature.end_ f <= n).

Definition total_length (fs : list GraphicFeature.t) : Z :=
  foldr (fun f acc => GraphicFeature.length f + acc) 0 fs.

(** [d[k] = v] on a dictionary kept as the list of its items in insertion
    order: an existing key keeps its place. *)
Fixpoint dict_set {V} (k : string) (v : V) (d : list (string * V))
  : list (string * V) :=
  match d with
  | [] => [(k, v)]
  | (k', v') :: d' =>
      if String.eqb k k' then (k, v) :: d' else (k', v') :: dict_set k v d'
  end.

(** [d.get(k)] *)
Fixpoint dict_get {V} (k : string) (d : list (string * V)) : option V :=
  match d with
  | [] => None
  | (k', v') :: d' => if String.eqb k k' then Some v' else dict_get k d'
  end.

(** [dict(items)] *)
Definition dict_of_items {V} (items : list (string * V)) : list (string * V) :=
  foldl (fun d kv => dict_set (fst kv) (snd kv) d) [] items.

(** The [fontdict] attribute that [GraphicFeature.__init__] builds from its
    [fontdict] argument:
    [dict([("fontsize", 11)] + list((fontdict or {}).items()))]. *)
Definition init_fontdict (fontdict : option (list (string * pyval)))
  : list (string * pyval) :=
  dict_of_items
    ([("fontsize", PInt 11)]
     ++ match fontdict with Some d => d | None => [] end).

(** The mantissa [p] shifted left by [k] bits. *)
Definition shl (p : positive) (k : Z) : positive :=
  match k with Zpos d => Pos.iter xO p d | _ => p end.

(** The binary64 number for [h / 2], for an integer [h] below [2 ^ 53] in
    magnitude: the 53-bit mantissa and its exponent. *)
Definition of_halves (h : Z) : spec_float :=
  match h with
  | Z0 => S754_zero false
  | Zpos p =>
      S754_finite false (shl p (53 - Zpos (digits2_pos p))) (Zpos (digits2_pos p) - 54)
  | Zneg p =>
      S754_finite true (shl p (53 - Zpos (digits2_pos p))) (Zpos (digits2_pos p) - 54)
  end.

(** ** The embedding on small inputs *)

(** A zero-length feature against a later and an earlier feature, without
    the sequence length. *)
Example overlaps_ex1 :
  GraphicFeature.overlaps_with (GraphicFeature.init 5 5 None None)
    (GraphicFeature.init 7 9 None None) None = Raise TypeError.
Proof. reflexivity. Qed.

Example overlaps_ex2 :
  GraphicFeature.overlaps_with (GraphicFeature.init 5 5 None None)
    (GraphicFeature.init 1 3 None None) None = Ok true.
Proof. reflexivity. Qed.

(** [test_cropping] *)
Example cropping_ex :
  (r ← snd (GraphicRecord.crop (425, 650)
       {| GraphicRecord.features :=
            [GraphicFeature.init 5 20 (Some 1) (Some "Small feature");
             GraphicFeature.init 20 500 (Some 1) (Some "Gene 1 with a very long name");
             GraphicFeature.init 400 700 (Some (-1)) (Some "Gene 2");
             GraphicFeature.init 600 900 (Some 1) (Some "Gene 3")];
          GraphicRecord.sequence_length := 1000;
          GraphicRecord.feature_level_height := 1%Q;
          GraphicRecord.sequence := None;
          GraphicRecord.first_index := 0;
          GraphicRecord.plots_indexing := "biopython";
          GraphicRecord.labels_spacing := 8 |});
   Ok (length (GraphicRecord.features r))) = Ok 3%nat.
Proof. reflexivity. Qed.

(** [test_split_overflowing_features] *)
Example split_ex :
  sorted (map location_and_label
    (GraphicRecord.features (fst (GraphicRecord.split_overflowing_features_circularly test_split_record))))
  = Ok [(0, 2, Some "c"); (0, 5, Some "b"); (10, 20, Some "a"); (30, 49, Some "c"); (40, 49, Some "b")].
Proof. vm_compute. reflexivity. Qed.

(** ** Cropping and splitting features *)

Lemma crop_some_inv (f c : GraphicFeature.t) (s e : Z) :
  GraphicFeature.crop f (s, e) = Some c ->
  c = (if e <? GraphicFeature.end_ f
       then fun g => GraphicFeature.set_open_right true (GraphicFeature.set_end e g)
       else fun g => g)
        (if s >? GraphicFeature.start f
         then GraphicFeature.set_open_left true (GraphicFeature.set_start s f)
         else f).
Proof.
  unfold GraphicFeature.crop, GraphicFeature.deepcopy.
  destruct ((s >? GraphicFeature.end_ f) || (e <? GraphicFeature.start f));
    [discriminate|].
  intros [= <-].
  destruct (s >? GraphicFeature.start f), (e <? GraphicFeature.end_ f); reflexivity.
Qed.

(** C1 (as amended). [crop] returns [None] exactly when the window lies
    wholly after the feature's end or wholly before its start; otherwise the
    copy it returns has the intersection as interval, has [open_left] true
    iff the window starts after the feature's start or the feature was
    already open on the left, likewise [open_right], and every other field
    is that of the feature. *)
Theorem crop_feature_spec (f : GraphicFeature.t) (s e : Z) :
  (GraphicFeature.crop f (s, e) = None <->
   s > GraphicFeature.end_ f \/ e < GraphicFeature.start f) /\
  (forall c, GraphicFeature.crop f (s, e) = Some c ->
     GraphicFeature.start c = Z.max (GraphicFeature.start f) s /\
     GraphicFeature.end_ c = Z.min (GraphicFeature.end_ f) e /\
     (GraphicFeature.open_left c = true <->
      s > GraphicFeature.start f \/ GraphicFeature.open_left f = true) /\
     (GraphicFeature.open_right c = true <->
      e < GraphicFeature.end_ f \/ GraphicFeature.open_right f = true) /\
     GraphicFeature.same_metadata f c).
Proof.
  split.
  - unfold GraphicFeature.crop.
    destruct (Z.gtb_spec s (GraphicFeature.end_ f)),
             (Z.ltb_spec e (GraphicFeature.start f)); simpl;
      split; try discriminate; try tauto; try lia.
  - intros c Hc. apply crop_some_inv in Hc. subst c.
    destruct (Z.gtb_spec s (GraphicFeature.start f)),
             (Z.ltb_spec e (GraphicFeature.end_ f)); simpl;
      (repeat split; try reflexivity; try lia; try tauto;
       intros [?|?]; (lia || assumption)).
Qed.

Lemma crop_feature_spec_witness :
  GraphicFeature.start
    (GraphicFeature.set_open_right true
       (GraphicFeature.set_end 650 (GraphicFeature.set_open_left true
          (GraphicFeature.set_start 425 (GraphicFeature.init 400 700 (Some (-1)) (Some "Gene 2"))))))
  = Z.max 400 425.
Proof.
  exact (proj1 (proj2 (crop_feature_spec
    (GraphicFeature.init 400 700 (Some (-1)) (Some "Gene 2")) 425 650) _ eq_refl)).
Defined.

(** C1, as stated, fails on a feature that is already open on the left:
    cropped to a window that does not truncate it, the copy is still open on
    the left although the window does not start after the feature's start. *)
Lemma crop_open_flag_counterexample :
  let f := GraphicFeature.set_open_left true (GraphicFeature.init 5 20 None None) in
  exists c, GraphicFeature.crop f (0, 30) = Some c /\
            GraphicFeature.open_left c = true /\
            ~ (0 > GraphicFeature.start f).
Proof.
  eexists. split; [reflexivity|]. split; [reflexivity|]. simpl. lia.
Qed.

(** C8 (as amended). [split_in_two x] returns a first fragment ending at
    [x] and a second one starting at [x + 1], each a copy of the feature in
    every other field; the two fragments never share a position; and when
    the cut lies inside the feature ([start <= x < end]) every position of
    the feature is in exactly one of: the first fragment, the cut position,
    the second fragment. *)
Theorem split_in_two_spec (f : GraphicFeature.t) (x : Z) :
  let f1 := fst (GraphicFeature.split_in_two f x) in
  let f2 := snd (GraphicFeature.split_in_two f x) in
  (GraphicFeature.start f1 = GraphicFeature.start f /\
   GraphicFeature.end_ f1 = x /\
   GraphicFeature.start f2 = x + 1 /\
   GraphicFeature.end_ f2 = GraphicFeature.end_ f) /\
  (GraphicFeature.same_metadata f f1 /\ same_open_flags f f1 /\
   GraphicFeature.same_metadata f f2 /\ same_open_flags f f2) /\
  (forall z, ~ (covers f1 z /\ covers f2 z)) /\
  (forall z, ~ (covers f1 z /\ z = x) /\ ~ (z = x /\ covers f2 z)) /\
  (GraphicFeature.start f <= x < GraphicFeature.end_ f ->
   forall z, covers f z <-> covers f1 z \/ z = x \/ covers f2 z).
Proof.
  intros f1 f2. subst f1 f2.
  unfold covers, same_open_flags, GraphicFeature.same_metadata,
    GraphicFeature.split_in_two, GraphicFeature.deepcopy; simpl.
  split; [lia|]. split; [tauto|].
  split; [intros z; lia|]. split; [intros z; lia|].
  intros Hx z; lia.
Qed.

Lemma split_in_two_spec_witness :
  covers (GraphicFeature.init (-20) 2 (Some 1) (Some "c")) 1 <->
  covers (fst (GraphicFeature.split_in_two
                 (GraphicFeature.init (-20) 2 (Some 1) (Some "c")) (-1))) 1 \/
  1 = -1 \/
  covers (snd (GraphicFeature.split_in_two
                 (GraphicFeature.init (-20) 2 (Some 1) (Some "c")) (-1))) 1.
Proof.
  apply (split_in_two_spec (GraphicFeature.init (-20) 2 (Some 1) (Some "c")) (-1)).
  simpl. lia.
Defined.

(** C8, as stated for every cut position, fails when the cut lies outside
    the feature: cutting [0, 10] at 20 gives a first fragment that reaches
    position 15, which the feature does not. *)
Lemma split_in_two_outside_counterexample :
  let f := GraphicFeature.init 0 10 None None in
  let f1 := fst (GraphicFeature.split_in_two f 20) in
  (GraphicFeature.start f1 <= 15 <= GraphicFeature.end_ f1) /\
  ~ (GraphicFeature.start f <= 15 <= GraphicFeature.end_ f).
Proof. simpl. lia. Qed.

(** ** Overlap of two features *)

Lemma bind_ok {A B} (a : A) (k : A -> result B) : (Ok a ≫= k) = k a.
Proof. reflexivity. Qed.

(** One iteration of the inner loop of [overlaps_with] on two ranges with
    integer bounds. *)
Lemma overlap_step (r1 r2 : Z * Z) (overlaps : bool) :
  (l ← sorted [with_int_bound r1; with_int_bound r2];
   '(loc1, loc2) ← unpack2 l;
   b ← py_gt (snd loc1) (Some (fst loc2));
   Ok (if (b : bool) then true else overlaps))
  = Ok (strict_overlap r1 r2 || overlaps).
Proof.
  destruct r1 as [x1 y1], r2 as [x2 y2].
  unfold with_int_bound, sorted, strict_overlap, range_lt, py_gt; simpl.
  destruct (Z.eqb_spec x2 x1), (Z.eqb_spec y2 y1), (Z.ltb_spec x2 x1),
    (Z.ltb_spec y2 y1); simpl; subst;
    repeat match goal with
    | |- context [Z.ltb ?a ?b] => destruct (Z.ltb_spec a b)
    | |- context [Z.gtb ?a ?b] => destruct (Z.gtb_spec a b)
    end; simpl in *; try reflexivity; lia.
Qed.

Lemma ranges_with_length (f : GraphicFeature.t) (n : Z) :
  GraphicFeature.ranges f (Some n) = map with_int_bound (decompose f n).
Proof.
  unfold GraphicFeature.ranges, decompose.
  destruct (GraphicFeature.start f <? GraphicFeature.end_ f); reflexivity.
Qed.

Lemma ranges_linear (f : GraphicFeature.t) (csl : option Z) (n : Z) :
  GraphicFeature.start f < GraphicFeature.end_ f ->
  GraphicFeature.ranges f csl = map with_int_bound (decompose f n).
Proof.
  intros H. unfold GraphicFeature.ranges, decompose.
  destruct (Z.ltb_spec (GraphicFeature.start f) (GraphicFeature.end_ f));
    [reflexivity | lia].
Qed.

Lemma inner_loop (r1 : Z * Z) (l2 : list (Z * Z)) (overlaps : bool) :
  foldl (fun acc other_range =>
           overlaps ← acc;
           l ← sorted [with_int_bound r1; other_range];
           '(loc1, loc2) ← unpack2 l;
           b ← py_gt (snd loc1) (Some (fst loc2));
           Ok (if (b : bool) then true else overlaps))
        (Ok overlaps) (map with_int_bound l2)
  = Ok (overlaps || existsb (fun r2 => strict_overlap r1 r2) l2).
Proof.
  revert overlaps. induction l2 as [|r2 l2 IH]; intros overlaps.
  - simpl. now rewrite orb_false_r.
  - cbn [map foldl]. rewrite bind_ok, overlap_step, IH. f_equal. simpl.
    destruct (strict_overlap r1 r2), overlaps; reflexivity.
Qed.

Lemma outer_loop (l1 l2 : list (Z * Z)) (overlaps : bool) :
  foldl (fun acc self_range =>
     foldl (fun acc other_range =>
           overlaps ← acc;
           l ← sorted [self_range; other_range];
           '(loc1, loc2) ← unpack2 l;
           b ← py_gt (snd loc1) (Some (fst loc2));
           Ok (if (b : bool) then true else overlaps))
        acc (map with_int_bound l2))
    (Ok overlaps) (map with_int_bound l1)
  = Ok (overlaps || ranges_overlap l1 l2).
Proof.
  revert overlaps. induction l1 as [|r1 l1 IH]; intros overlaps.
  - simpl. now rewrite orb_false_r.
  - cbn [map foldl]. rewrite inner_loop, IH. f_equal. simpl.
    now rewrite orb_assoc.
Qed.

Lemma guard_false_circular (a b : GraphicFeature.t) (n : Z) :
  ((GraphicFeature.start a >? GraphicFeature.end_ a)
   || (GraphicFeature.start b >? GraphicFeature.end_ b))
  && bool_decide (Some n = None) = false.
Proof. rewrite bool_decide_eq_false_2 by discriminate. apply andb_false_r. Qed.

Lemma overlaps_with_circular (a b : GraphicFeature.t) (n : Z) :
  GraphicFeature.overlaps_with a b (Some n)
  = Ok (ranges_overlap (decompose a n) (decompose b n)).
Proof.
  unfold GraphicFeature.overlaps_with.
  rewrite guard_false_circular, !ranges_with_length.
  apply outer_loop.
Qed.

Lemma overlaps_with_linear (a b : GraphicFeature.t) (csl : option Z) (n : Z) :
  GraphicFeature.start a < GraphicFeature.end_ a ->
  GraphicFeature.start b < GraphicFeature.end_ b ->
  GraphicFeature.overlaps_with a b csl
  = Ok (ranges_overlap (decompose a n) (decompose b n)).
Proof.
  intros Ha Hb. unfold GraphicFeature.overlaps_with.
  destruct (Z.gtb_spec (GraphicFeature.start a) (GraphicFeature.end_ a)); [lia|].
  destruct (Z.gtb_spec (GraphicFeature.start b) (GraphicFeature.end_ b)); [lia|].
  cbn [orb andb].
  rewrite (ranges_linear a csl n Ha), (ranges_linear b csl n Hb).
  apply outer_loop.
Qed.

(** For two features that do not reach the origin, overlap is the usual
    test on half-open intervals. *)
Lemma overlaps_with_intervals (a b : GraphicFeature.t) (csl : option Z) :
  GraphicFeature.start a < GraphicFeature.end_ a ->
  GraphicFeature.start b < GraphicFeature.end_ b ->
  GraphicFeature.overlaps_with a b csl
  = Ok (Z.max (GraphicFeature.start a) (GraphicFeature.start b)
        <? Z.min (GraphicFeature.end_ a) (GraphicFeature.end_ b)).
Proof.
  intros Ha Hb. rewrite (overlaps_with_linear a b csl 0 Ha Hb). f_equal.
  unfold ranges_overlap, decompose, strict_overlap, range_lt.
  destruct (Z.ltb_spec (GraphicFeature.start a) (GraphicFeature.end_ a)); [|lia].
  destruct (Z.ltb_spec (GraphicFeature.start b) (GraphicFeature.end_ b)); [|lia].
  simpl. rewrite !orb_false_r.
  repeat match goal with
    | |- context [Z.ltb ?a ?b] => destruct (Z.ltb_spec a b)
    | |- context [Z.gtb ?a ?b] => destruct (Z.gtb_spec a b)
    | |- context [Z.eqb ?a ?b] => destruct (Z.eqb_spec a b)
    end; simpl in *; try reflexivity; lia.
Qed.

(** C2. With the sequence length supplied (or with two features that need
    no decomposition), [overlaps_with] succeeds, and answers true exactly
    when some range of the one feature and some range of the other, put in
    sorted order, have the earlier one end strictly after the later one
    starts; a feature ending where the other starts does not overlap it. *)
Theorem overlaps_with_strict_overlap (a b : GraphicFeature.t) :
  (forall n : Z,
     GraphicFeature.overlaps_with a b (Some n)
     = Ok (ranges_overlap (decompose a n) (decompose b n))) /\
  (forall n : Z,
     GraphicFeature.overlaps_with a b (Some n) = Ok true <->
     exists r1 r2, In r1 (decompose a n) /\ In r2 (decompose b n) /\
                   strict_overlap r1 r2 = true) /\
  (forall (csl : option Z) (n : Z),
     GraphicFeature.start a < GraphicFeature.end_ a ->
     GraphicFeature.start b < GraphicFeature.end_ b ->
     GraphicFeature.overlaps_with a b csl
     = Ok (strict_overlap (GraphicFeature.start a, GraphicFeature.end_ a)
                          (GraphicFeature.start b, GraphicFeature.end_ b))) /\
  (forall r1 r2 : Z * Z,
     range_lt r2 r1 = false -> snd r1 = fst r2 -> strict_overlap r1 r2 = false) /\
  (forall csl : option Z,
     GraphicFeature.start a < GraphicFeature.end_ a ->
     GraphicFeature.start b < GraphicFeature.end_ b ->
     GraphicFeature.end_ a = GraphicFeature.start b ->
     GraphicFeature.overlaps_with a b csl = Ok false).
Proof.
  split; [intros n; apply overlaps_with_circular|].
  split.
  { intros n. rewrite overlaps_with_circular. unfold ranges_overlap. split.
    - intros [= H]. apply existsb_exists in H as (r1 & H1 & H).
      apply existsb_exists in H as (r2 & H2 & H). eauto.
    - intros (r1 & r2 & H1 & H2 & H). f_equal.
      apply existsb_exists. exists r1. split; [assumption|].
      apply existsb_exists. exists r2. split; assumption. }
  split.
  { intros csl n Ha Hb. rewrite (overlaps_with_linear a b csl n Ha Hb).
    unfold ranges_overlap, decompose.
    destruct (Z.ltb_spec (GraphicFeature.start a) (GraphicFeature.end_ a)); [|lia].
    destruct (Z.ltb_spec (GraphicFeature.start b) (GraphicFeature.end_ b)); [|lia].
    simpl. now rewrite !orb_false_r. }
  split.
  { intros r1 r2 Hlt Heq. unfold strict_overlap. rewrite Hlt.
    destruct (Z.gtb_spec (snd r1) (fst r2)); [lia | reflexivity]. }
  intros csl Ha Hb Heq. rewrite (overlaps_with_intervals a b csl Ha Hb). f_equal.
  destruct (Z.ltb_spec (Z.max (GraphicFeature.start a) (GraphicFeature.start b))
              (Z.min (GraphicFeature.end_ a) (GraphicFeature.end_ b)));
    [lia | reflexivity].
Qed.

Lemma overlaps_with_strict_overlap_witness :
  GraphicFeature.overlaps_with (GraphicFeature.init 5 20 (Some 1) None)
    (GraphicFeature.init 20 500 (Some 1) None) None = Ok false.
Proof.
  apply (overlaps_with_strict_overlap (GraphicFeature.init 5 20 (Some 1) None)
           (GraphicFeature.init 20 500 (Some 1) None));
    simpl; (lia || reflexivity).
Defined.

(** *** Errors of the overlap test *)

Lemma body_not_value_error (r1 r2 : Z * option Z) (acc : result bool) :
  not_value_error acc ->
  not_value_error
    (overlaps ← acc;
     l ← sorted [r1; r2];
     '(loc1, loc2) ← unpack2 l;
     b ← py_gt (snd loc1) (Some (fst loc2));
     Ok (if (b : bool) then true else overlaps)).
Proof.
  destruct acc as [ov|[msg|]]; simpl; try tauto. intros _.
  destruct r1 as [x1 [y1|]], r2 as [x2 [y2|]]; unfold sorted, py_gt; simpl;
    repeat match goal with
    | |- context [Z.ltb ?a ?b] => destruct (Z.ltb_spec a b); simpl
    | |- context [Z.eqb ?a ?b] => destruct (Z.eqb_spec a b); simpl
    end; exact I.
Qed.

Lemma loops_not_value_error (l1 l2 : list (Z * option Z)) (acc : result bool) :
  not_value_error acc ->
  not_value_error
    (foldl (fun acc self_range =>
       foldl (fun acc other_range =>
             overlaps ← acc;
             l ← sorted [self_range; other_range];
             '(loc1, loc2) ← unpack2 l;
             b ← py_gt (snd loc1) (Some (fst loc2));
             Ok (if (b : bool) then true else overlaps))
          acc l2) acc l1).
Proof.
  revert acc. induction l1 as [|r1 l1 IH]; intros acc Hacc; [assumption|].
  cbn [foldl]. apply IH. clear IH.
  revert acc Hacc. induction l2 as [|r2 l2 IH2]; intros acc Hacc; [assumption|].
  cbn [foldl]. apply IH2. now apply body_not_value_error.
Qed.

(** Past its guard, [overlaps_with] raises no [ValueError]. *)
Lemma overlaps_with_not_value_error (a b : GraphicFeature.t) (csl : option Z) :
  ~ GraphicFeature.start a > GraphicFeature.end_ a ->
  ~ GraphicFeature.start b > GraphicFeature.end_ b ->
  not_value_error (GraphicFeature.overlaps_with a b csl).
Proof.
  intros Ha Hb. unfold GraphicFeature.overlaps_with.
  destruct (Z.gtb_spec (GraphicFeature.start a) (GraphicFeature.end_ a)); [lia|].
  destruct (Z.gtb_spec (GraphicFeature.start b) (GraphicFeature.end_ b)); [lia|].
  cbn [orb andb]. now apply loops_not_value_error.
Qed.

Lemma pair_step_cases (r1 r2 : Z * option Z) :
  pair_step r1 r2 = Raise TypeError \/ exists b, pair_step r1 r2 = Ok b.
Proof.
  destruct r1 as [x1 [y1|]], r2 as [x2 [y2|]];
    unfold pair_step, sorted, py_gt; cbn -[Z.ltb Z.eqb];
    repeat match goal with
    | |- context [Z.eqb ?a ?b] => destruct (Z.eqb_spec a b); cbn -[Z.ltb Z.eqb]
    | |- context [Z.ltb ?a ?b] => destruct (Z.ltb_spec a b); cbn -[Z.ltb Z.eqb]
    end; eauto.
Qed.

Lemma body_pair_step (r1 r2 : Z * option Z) (acc : result bool) :
  (overlaps ← acc;
   l ← sorted [r1; r2];
   '(loc1, loc2) ← unpack2 l;
   b ← py_gt (snd loc1) (Some (fst loc2));
   Ok (if (b : bool) then true else overlaps))
  = (overlaps ← acc;
     if pair_raises r1 r2 then Raise TypeError
     else Ok (overlaps || pair_true r1 r2)).
Proof.
  destruct acc as [ov|e]; [|reflexivity]. rewrite !bind_ok.
  unfold pair_raises, pair_true.
  destruct (pair_step_cases r1 r2) as [H|[b H]]; rewrite H;
    unfold pair_step in H.
  - destruct (sorted [r1; r2]) as [l|e]; cbn in H |- *; [|congruence].
    destruct (unpack2 l) as [[loc1 loc2]|e]; cbn in H |- *; [|congruence].
    now rewrite H.
  - destruct (sorted [r1; r2]) as [l|e]; cbn in H |- *; [|congruence].
    destruct (unpack2 l) as [[loc1 loc2]|e]; cbn in H |- *; [|congruence].
    rewrite H. cbn. destruct b, ov; reflexivity.
Qed.

Lemma inner_loop_outcome (r1 : Z * option Z) (l2 : list (Z * option Z))
    (acc : result bool) :
  foldl (fun acc other_range =>
           overlaps ← acc;
           l ← sorted [r1; other_range];
           '(loc1, loc2) ← unpack2 l;
           b ← py_gt (snd loc1) (Some (fst loc2));
           Ok (if (b : bool) then true else overlaps))
        acc l2
  = (overlaps ← acc;
     if existsb (pair_raises r1) l2 then Raise TypeError
     else Ok (overlaps || existsb (pair_true r1) l2)).
Proof.
  revert acc. induction l2 as [|r2 l2 IH]; intros acc; cbn [foldl existsb].
  - destruct acc as [ov|e]; [|reflexivity]. rewrite bind_ok. now rewrite orb_false_r.
  - rewrite body_pair_step, IH. destruct acc as [ov|e]; [|reflexivity].
    rewrite !bind_ok. destruct (pair_raises r1 r2); [reflexivity|].
    rewrite bind_ok. cbn [orb].
    destruct (existsb (pair_raises r1) l2); [reflexivity|].
    now rewrite orb_assoc.
Qed.

Lemma outer_loop_outcome (l1 l2 : list (Z * option Z)) (acc : result bool) :
  foldl (fun acc self_range =>
     foldl (fun acc other_range =>
           overlaps ← acc;
           l ← sorted [self_range; other_range];
           '(loc1, loc2) ← unpack2 l;
           b ← py_gt (snd loc1) (Some (fst loc2));
           Ok (if (b : bool) then true else overlaps))
        acc l2) acc l1
  = (overlaps ← acc;
     if existsb (fun r1 => existsb (pair_raises r1) l2) l1 then Raise TypeError
     else Ok (overlaps || existsb (fun r1 => existsb (pair_true r1) l2) l1)).
Proof.
  revert acc. induction l1 as [|r1 l1 IH]; intros acc; cbn [foldl existsb].
  - destruct acc as [ov|e]; [|reflexivity]. rewrite bind_ok. now rewrite orb_false_r.
  - rewrite inner_loop_outcome, IH. destruct acc as [ov|e]; [|reflexivity].
    rewrite !bind_ok. destruct (existsb (pair_raises r1) l2); [reflexivity|].
    rewrite bind_ok. cbn [orb].
    destruct (existsb (fun r1 => existsb (pair_raises r1) l2) l1); [reflexivity|].
    now rewrite orb_assoc.
Qed.

(** The whole outcome of [overlaps_with]: the [ValueError] of the guard;
    otherwise a [TypeError] as soon as one pair of ranges cannot be ordered
    or compared; otherwise whether some pair of ranges compares true. *)
Lemma overlaps_with_outcome (a b : GraphicFeature.t) (csl : option Z) :
  GraphicFeature.overlaps_with a b csl
  = if ((GraphicFeature.start a >? GraphicFeature.end_ a)
        || (GraphicFeature.start b >? GraphicFeature.end_ b))
       && bool_decide (csl = None)
    then Raise (ValueError GraphicFeature.need_circular_seq_length)
    else if existsb (fun r1 => existsb (pair_raises r1) (GraphicFeature.ranges b csl))
              (GraphicFeature.ranges a csl)
    then Raise TypeError
    else Ok (existsb (fun r1 => existsb (pair_true r1) (GraphicFeature.ranges b csl))
               (GraphicFeature.ranges a csl)).
Proof.
  unfold GraphicFeature.overlaps_with.
  destruct (((GraphicFeature.start a >? GraphicFeature.end_ a)
             || (GraphicFeature.start b >? GraphicFeature.end_ b))
            && bool_decide (csl = None)); [reflexivity|].
  now rewrite outer_loop_outcome, bind_ok.
Qed.






(** One iteration of the inner loop when one of the two ranges has [None]
    as upper bound. *)
Lemma overlap_step_none_left (x : Z) (r2 : Z * Z) (acc : result bool) :
  (overlaps ← acc;
   l ← sorted [(x, None); with_int_bound r2];
   '(loc1, loc2) ← unpack2 l;
   b ← py_gt (snd loc1) (Some (fst loc2));
   Ok (if (b : bool) then true else overlaps))
  = (overlaps ← acc;
     if x <=? fst r2 then Raise TypeError else Ok ((x <? snd r2) || overlaps)).
Proof.
  destruct acc as [ov|e]; [|reflexivity]. destruct r2 as [x2 y2].
  unfold with_int_bound, sorted, py_gt;
    cbn -[Z.ltb Z.eqb Z.leb Z.gtb].
  destruct (Z.eqb_spec x2 x), (Z.leb_spec x x2), (Z.ltb_spec x2 x);
    try lia; cbn -[Z.ltb Z.eqb Z.leb Z.gtb]; reflexivity.
Qed.

Lemma overlap_step_none_right (r1 : Z * Z) (x : Z) (acc : result bool) :
  (overlaps ← acc;
   l ← sorted [with_int_bound r1; (x, None)];
   '(loc1, loc2) ← unpack2 l;
   b ← py_gt (snd loc1) (Some (fst loc2));
   Ok (if (b : bool) then true else overlaps))
  = (overlaps ← acc;
     if x <=? fst r1 then Raise TypeError else Ok ((x <? snd r1) || overlaps)).
Proof.
  destruct acc as [ov|e]; [|reflexivity]. destruct r1 as [x1 y1].
  unfold with_int_bound, sorted, py_gt;
    cbn -[Z.ltb Z.eqb Z.leb Z.gtb].
  destruct (Z.eqb_spec x x1), (Z.leb_spec x x1), (Z.ltb_spec x x1);
    try lia; cbn -[Z.ltb Z.eqb Z.leb Z.gtb]; reflexivity.
Qed.

Lemma overlap_step_acc (r1 r2 : Z * Z) (acc : result bool) :
  (overlaps ← acc;
   l ← sorted [with_int_bound r1; with_int_bound r2];
   '(loc1, loc2) ← unpack2 l;
   b ← py_gt (snd loc1) (Some (fst loc2));
   Ok (if (b : bool) then true else overlaps))
  = (overlaps ← acc; Ok (strict_overlap r1 r2 || overlaps)).
Proof.
  destruct acc as [ov|e]; [|reflexivity]. rewrite bind_ok. apply overlap_step.
Qed.

(** C10. A feature with [start = end] passes the guard of [overlaps_with]
    (which tests [start > end]) yet is decomposed as if it spanned the
    origin; without the sequence length its first range has [None] as upper
    bound. Against a feature with [start < end] no [ValueError] is raised;
    the comparison reaches the [None] bound, and raises [TypeError], as soon
    as the zero-length feature does not start after the other one. *)
Theorem overlaps_with_zero_length (d l : GraphicFeature.t) :
  GraphicFeature.start d = GraphicFeature.end_ d ->
  GraphicFeature.start l < GraphicFeature.end_ l ->
  GraphicFeature.ranges d None
  = [(GraphicFeature.start d, None); (0, Some (GraphicFeature.end_ d))] /\
  (forall msg, GraphicFeature.overlaps_with d l None <> Raise (ValueError msg)) /\
  (forall msg, GraphicFeature.overlaps_with l d None <> Raise (ValueError msg)) /\
  GraphicFeature.overlaps_with d l None
  = (if GraphicFeature.start d <=? GraphicFeature.start l then Raise TypeError
     else Ok (strict_overlap (0, GraphicFeature.end_ d)
                (GraphicFeature.start l, GraphicFeature.end_ l)
              || (GraphicFeature.start d <? GraphicFeature.end_ l))) /\
  GraphicFeature.overlaps_with l d None
  = (if GraphicFeature.start d <=? GraphicFeature.start l then Raise TypeError
     else Ok (strict_overlap (GraphicFeature.start l, GraphicFeature.end_ l)
                (0, GraphicFeature.end_ d)
              || (GraphicFeature.start d <? GraphicFeature.end_ l))).
Proof.
  intros Hd Hl.
  assert (Hdl : forall msg,
    GraphicFeature.overlaps_with d l None <> Raise (ValueError msg)).
  { intros msg H. pose proof (overlaps_with_not_value_error d l None) as Hn.
    rewrite H in Hn. apply Hn; lia. }
  assert (Hld : forall msg,
    GraphicFeature.overlaps_with l d None <> Raise (ValueError msg)).
  { intros msg H. pose proof (overlaps_with_not_value_error l d None) as Hn.
    rewrite H in Hn. apply Hn; lia. }
  split.
  { unfold GraphicFeature.ranges.
    destruct (Z.ltb_spec (GraphicFeature.start d) (GraphicFeature.end_ d));
      [lia | reflexivity]. }
  split; [exact Hdl|]. split; [exact Hld|].
  unfold GraphicFeature.overlaps_with, GraphicFeature.ranges.
  destruct (Z.gtb_spec (GraphicFeature.start d) (GraphicFeature.end_ d)); [lia|].
  destruct (Z.gtb_spec (GraphicFeature.start l) (GraphicFeature.end_ l)); [lia|].
  destruct (Z.ltb_spec (GraphicFeature.start d) (GraphicFeature.end_ d)); [lia|].
  destruct (Z.ltb_spec (GraphicFeature.start l) (GraphicFeature.end_ l)); [|lia].
  cbn [orb andb app foldl].
  change (0, Some (GraphicFeature.end_ d))
    with (with_int_bound (0, GraphicFeature.end_ d)).
  change (GraphicFeature.start l, Some (GraphicFeature.end_ l))
    with (with_int_bound (GraphicFeature.start l, GraphicFeature.end_ l)).
  split.
  - rewrite overlap_step_none_left, bind_ok. cbn [fst snd].
    destruct (GraphicFeature.start d <=? GraphicFeature.start l); [reflexivity|].
    rewrite overlap_step_acc, bind_ok. now rewrite orb_false_r.
  - rewrite overlap_step_none_right, bind_ok. cbn [fst snd].
    destruct (GraphicFeature.start d <=? GraphicFeature.start l); [reflexivity|].
    rewrite overlap_step_acc, bind_ok. now rewrite orb_false_r.
Qed.

Lemma overlaps_with_zero_length_witness :
  GraphicFeature.overlaps_with (GraphicFeature.init 5 5 None None)
    (GraphicFeature.init 7 9 None None) None
  = (if 5 <=? 7 then Raise TypeError
     else Ok (strict_overlap (0, 5) (7, 9) || (5 <? 9))).
Proof.
  apply (overlaps_with_zero_length (GraphicFeature.init 5 5 None None)
           (GraphicFeature.init 7 9 None None)); simpl; lia.
Defined.

(** ** Cropping a record *)

Lemma crop_loop (window : Z * Z) (fs acc : list GraphicFeature.t) :
  foldl (fun new_features f =>
           match GraphicFeature.crop f window with
           | Some cropped_feature => new_features ++ [cropped_feature]
           | None => new_features
           end) acc fs
  = acc ++ omap (fun f => GraphicFeature.crop f window) fs.
Proof.
  revert acc. induction fs as [|f fs IH]; intros acc; simpl.
  - now rewrite app_nil_r.
  - rewrite IH. destruct (GraphicFeature.crop f window); [|reflexivity].
    now rewrite <- app_assoc.
Qed.

(** C5. [crop] on a record raises its [ValueError] exactly when the window
    starts before 0 or ends at or after the sequence length, and then
    returns no record; otherwise it returns a new record of length [e - s],
    with [first_index] moved by [s], the sequence (when there is one)
    sliced to [[s:e]], and as features the cropped features that are not
    [None], in order. In both cases the record itself is left as it was. *)
Theorem crop_record_spec (r : GraphicRecord.t) (s e : Z) :
  fst (GraphicRecord.crop (s, e) r) = r /\
  (snd (GraphicRecord.crop (s, e) r) = Raise (ValueError "out-of-bound cropping")
   <-> s < 0 \/ e >= GraphicRecord.sequence_length r) /\
  ((exists r', snd (GraphicRecord.crop (s, e) r) = Ok r')
   <-> ~ (s < 0 \/ e >= GraphicRecord.sequence_length r)) /\
  (forall r', snd (GraphicRecord.crop (s, e) r) = Ok r' ->
     GraphicRecord.sequence_length r' = e - s /\
     GraphicRecord.first_index r' = GraphicRecord.first_index r + s /\
     GraphicRecord.sequence r'
     = option_map (fun sq => slice sq s e) (GraphicRecord.sequence r) /\
     GraphicRecord.features r'
     = omap (fun f => GraphicFeature.crop f (s, e)) (GraphicRecord.features r) /\
     GraphicRecord.feature_level_height r'
     = GraphicRecord.feature_level_height r).
Proof.
  unfold GraphicRecord.crop.
  destruct (Z.ltb_spec s 0), (Z.geb_spec e (GraphicRecord.sequence_length r));
    cbn [orb fst snd].
  1-3: (split; [reflexivity|]; split; [split; [intros _; lia | reflexivity]|];
        split; [split; [intros [r' [=]] | lia] | intros r' [=]]).
  split; [reflexivity|]. split; [split; [intros [=] | lia]|].
  unfold GraphicRecord.init. rewrite bind_ok.
  split; [split; [lia | eauto]|].
  intros r' [= <-].
  cbn [GraphicRecord.sequence_length GraphicRecord.first_index
       GraphicRecord.sequence GraphicRecord.features
       GraphicRecord.feature_level_height].
  split; [reflexivity|]. split; [reflexivity|].
  split; [now destruct (GraphicRecord.sequence r)|].
  split; [|reflexivity].
  exact (crop_loop (s, e) (GraphicRecord.features r) []).
Qed.

Lemma crop_record_spec_witness :
  ~ (425 < 0 \/ 650 >= GraphicRecord.sequence_length
       {| GraphicRecord.features :=
            [GraphicFeature.init 5 20 (Some 1) (Some "Small feature");
             GraphicFeature.init 20 500 (Some 1) (Some "Gene 1 with a very long name");
             GraphicFeature.init 400 700 (Some (-1)) (Some "Gene 2");
             GraphicFeature.init 600 900 (Some 1) (Some "Gene 3")];
          GraphicRecord.sequence_length := 1000;
          GraphicRecord.feature_level_height := 1%Q;
          GraphicRecord.sequence := None;
          GraphicRecord.first_index := 0;
          GraphicRecord.plots_indexing := "biopython";
          GraphicRecord.labels_spacing := 8 |}).
Proof.
  apply (crop_record_spec _ 425 650). eexists. reflexivity.
Defined.

(** ** Splitting the features that overflow the edges *)

Lemma split_loop (n : Z) (fs acc : list GraphicFeature.t) :
  foldl (fun new_features f =>
           if (GraphicFeature.start f <? 0) && (0 <? GraphicFeature.end_ f)
           then
             let '(f1, f2) := GraphicFeature.split_in_two f (-1) in
             let f1 := GraphicRecord.shift n f1 in
             new_features ++ [f1; f2]
           else if (GraphicFeature.start f <? n) && (n <? GraphicFeature.end_ f)
           then
             let '(f1, f2) := GraphicFeature.split_in_two f (n - 1) in
             let f2 := GraphicRecord.shift (- n) f2 in
             new_features ++ [f1; f2]
           else new_features ++ [f]) acc fs
  = acc ++ concat (map (split_one n) fs).
Proof.
  revert acc. induction fs as [|f fs IH]; intros acc; cbn [foldl map concat].
  - now rewrite app_nil_r.
  - rewrite IH, app_assoc. f_equal. unfold split_one.
    destruct ((GraphicFeature.start f <? 0) && (0 <? GraphicFeature.end_ f));
      [reflexivity|].
    destruct ((GraphicFeature.start f <? n) && (n <? GraphicFeature.end_ f));
      reflexivity.
Qed.

Lemma split_one_spec (n : Z) (f : GraphicFeature.t) : split_of n f (split_one n f).
Proof.
  unfold split_one.
  destruct (Z.ltb_spec (GraphicFeature.start f) 0),
           (Z.ltb_spec 0 (GraphicFeature.end_ f)); cbn [andb];
    try (destruct (Z.ltb_spec (GraphicFeature.start f) n),
                  (Z.ltb_spec n (GraphicFeature.end_ f)); cbn [andb]);
    solve [ apply split_at_origin; lia
          | apply split_at_end; lia
          | apply split_kept; lia ].
Qed.

Lemma split_features (r : GraphicRecord.t) :
  GraphicRecord.features (fst (GraphicRecord.split_overflowing_features_circularly r))
  = concat (map (split_one (GraphicRecord.sequence_length r)) (GraphicRecord.features r)).
Proof.
  exact (split_loop (GraphicRecord.sequence_length r) (GraphicRecord.features r) []).
Qed.

(** C3 (as amended). [split_overflowing_features_circularly] assigns to the
    record's features the list in which every feature with
    [start < 0 < end] is replaced by its two fragments cut at [-1], the
    left one moved by the sequence length; every other feature with
    [start < sequence_length < end] by its two fragments cut at
    [sequence_length - 1], the right one moved back by the sequence length;
    and every remaining feature is kept. Every fragment has the label of the
    feature it comes from. On the test suite's record the sorted
    locations and labels are those the test expects. *)
Theorem split_overflowing_spec (r : GraphicRecord.t) :
  snd (GraphicRecord.split_overflowing_features_circularly r) = Ok tt /\
  fst (GraphicRecord.split_overflowing_features_circularly r)
  = GraphicRecord.set_features
      (GraphicRecord.features
         (fst (GraphicRecord.split_overflowing_features_circularly r))) r /\
  (exists parts,
     Forall2 (split_of (GraphicRecord.sequence_length r))
             (GraphicRecord.features r) parts /\
     GraphicRecord.features
       (fst (GraphicRecord.split_overflowing_features_circularly r))
     = concat parts) /\
  (forall n f parts,
     split_of n f parts ->
     Forall (fun g => GraphicFeature.label g = GraphicFeature.label f) parts) /\
  sorted (map location_and_label
    (GraphicRecord.features
       (fst (GraphicRecord.split_overflowing_features_circularly test_split_record))))
  = Ok [(0, 2, Some "c"); (0, 5, Some "b"); (10, 20, Some "a");
        (30, 49, Some "c"); (40, 49, Some "b")].
Proof.
  split; [reflexivity|]. split; [reflexivity|].
  split.
  { exists (map (split_one (GraphicRecord.sequence_length r)) (GraphicRecord.features r)).
    split; [|apply split_features].
    induction (GraphicRecord.features r) as [|f fs IH]; constructor;
      [apply split_one_spec | exact IH]. }
  split.
  { intros n f parts H. destruct H; repeat constructor. }
  vm_compute. reflexivity.
Qed.

Lemma split_overflowing_spec_witness :
  Forall (fun g => GraphicFeature.label g = Some "c")
    [GraphicRecord.shift 50
       (fst (GraphicFeature.split_in_two (GraphicFeature.init (-20) 2 (Some 1) (Some "c")) (-1)));
     snd (GraphicFeature.split_in_two (GraphicFeature.init (-20) 2 (Some 1) (Some "c")) (-1))].
Proof.
  apply (proj1 (proj2 (proj2 (proj2 (split_overflowing_spec test_split_record))))
           50 (GraphicFeature.init (-20) 2 (Some 1) (Some "c"))).
  apply split_at_origin. simpl. lia.
Defined.

(** C3, as stated, asks every feature with [start < sequence_length < end]
    to be cut at [sequence_length - 1]; a feature that also has
    [start < 0 < end] is cut at [-1] only. *)
Lemma split_both_edges_counterexample :
  let f := GraphicFeature.init (-5) 60 None (Some "w") in
  let r := {| GraphicRecord.features := [f];
              GraphicRecord.sequence_length := 50;
              GraphicRecord.feature_level_height := 1%Q;
              GraphicRecord.sequence := None;
              GraphicRecord.first_index := 0;
              GraphicRecord.plots_indexing := "biopython";
              GraphicRecord.labels_spacing := 8 |} in
  GraphicFeature.start f < GraphicRecord.sequence_length r < GraphicFeature.end_ f /\
  map location_and_label
    (GraphicRecord.features (fst (GraphicRecord.split_overflowing_features_circularly r)))
  = [(45, 49, Some "w"); (0, 60, Some "w")] /\
  map location_and_label
    [fst (GraphicFeature.split_in_two f 49);
     GraphicRecord.shift (-50) (snd (GraphicFeature.split_in_two f 49))]
  = [(-5, 49, Some "w"); (0, 10, Some "w")].
Proof. simpl. repeat split; lia. Qed.

(** C7 (as amended). After the pass every feature of the record has both
    coordinates in [[0, sequence_length)] exactly when, before it, every
    feature lay in that range already or crossed one of its two edges
    without reaching further than one sequence length beyond it. *)
Theorem split_overflowing_in_range (r : GraphicRecord.t) :
  Forall (in_range (GraphicRecord.sequence_length r))
    (GraphicRecord.features (fst (GraphicRecord.split_overflowing_features_circularly r)))
  <-> Forall (splits_into_range (GraphicRecord.sequence_length r))
        (GraphicRecord.features r).
Proof.
  rewrite split_features.
  induction (GraphicRecord.features r) as [|f fs IH]; cbn [map concat].
  - split; constructor.
  - rewrite Forall_app, Forall_cons, IH.
    enough (Forall (in_range (GraphicRecord.sequence_length r))
              (split_one (GraphicRecord.sequence_length r) f)
            <-> splits_into_range (GraphicRecord.sequence_length r) f) as ->
      by reflexivity.
    unfold split_one, splits_into_range, in_range.
    destruct (Z.ltb_spec (GraphicFeature.start f) 0),
             (Z.ltb_spec 0 (GraphicFeature.end_ f)); cbn [andb];
      try (destruct (Z.ltb_spec (GraphicFeature.start f) (GraphicRecord.sequence_length r)),
                    (Z.ltb_spec (GraphicRecord.sequence_length r) (GraphicFeature.end_ f));
           cbn [andb]);
      cbn; rewrite ?Forall_cons, ?Forall_nil; cbn; lia.
Qed.

(** C7, as stated, fails on a feature that ends exactly at the sequence
    length: its coordinates are in [[-50, 100)], the pass keeps it, and its
    end is not below 50. *)
Lemma split_overflowing_range_counterexample :
  let f := GraphicFeature.init 10 50 None None in
  let r := {| GraphicRecord.features := [f];
              GraphicRecord.sequence_length := 50;
              GraphicRecord.feature_level_height := 1%Q;
              GraphicRecord.sequence := None;
              GraphicRecord.first_index := 0;
              GraphicRecord.plots_indexing := "biopython";
              GraphicRecord.labels_spacing := 8 |} in
  (- 50 <= GraphicFeature.start f < 2 * 50 /\ - 50 <= GraphicFeature.end_ f < 2 * 50) /\
  ~ Forall (in_range 50)
      (GraphicRecord.features (fst (GraphicRecord.split_overflowing_features_circularly r))).
Proof.
  cbn. split; [lia|]. intros H. apply Forall_cons in H as [[_ H] _]. cbn in H. lia.
Qed.

(** ** Circular length and centre *)

Lemma Qle_bool_spec (x y : Q) : reflect (x <= y)%Q (Qle_bool x y).
Proof.
  destruct (Qle_bool x y) eqn:E; constructor.
  - now apply Qle_bool_iff.
  - intros H. apply Qle_bool_iff in H. congruence.
Qed.

(** What the circular accessors compute, in exact arithmetic. For a
    feature with [start <= end], [length_circular] is [length], and
    [x_center_circular],
    where it does not wrap, is half a position beyond [x_center]; for a
    feature that spans the origin with [0 <= end < start < sequence_length]
    its value lies in [(0, sequence_length]], the upper bound being reached
    when [start + end = sequence_length]. *)
Lemma circular_center_facts (f : GraphicFeature.t) (n : Z) :
  (GraphicFeature.start f <= GraphicFeature.end_ f ->
   GraphicFeature.length_circular f n = GraphicFeature.length f) /\
  (GraphicFeature.start f <= GraphicFeature.end_ f ->
   GraphicFeature.start f + GraphicFeature.end_ f <= 2 * n ->
   (GraphicFeature.x_center_circular f n == GraphicFeature.x_center f + (1 # 2))%Q) /\
  (0 <= GraphicFeature.end_ f < GraphicFeature.start f ->
   GraphicFeature.start f < n ->
   (0 < GraphicFeature.x_center_circular f n)%Q /\
   (GraphicFeature.x_center_circular f n <= inject_Z n)%Q /\
   ((GraphicFeature.x_center_circular f n == inject_Z n)%Q <->
    GraphicFeature.start f + GraphicFeature.end_ f = n)).
Proof.
  unfold GraphicFeature.x_center_circular, GraphicFeature.x_center,
    GraphicFeature.length_circular, GraphicFeature.length.
  split; [|split].
  - intros H. destruct (Z.gtb_spec (GraphicFeature.start f) (GraphicFeature.end_ f)); lia.
  - intros H Hn.
    destruct (Z.gtb_spec (GraphicFeature.start f) (GraphicFeature.end_ f)); [lia|].
    destruct (Qle_bool_spec
      (inject_Z (GraphicFeature.end_ f - GraphicFeature.start f) * 0.5
       + inject_Z (GraphicFeature.start f)) (inject_Z n)) as [_|Hgt].
    + unfold Qeq, Qplus, Qmult, inject_Z; cbn [Qnum Qden]. lia.
    + exfalso. apply Hgt. unfold Qle, Qplus, Qmult, inject_Z; cbn [Qnum Qden]. lia.
  - intros H Hn.
    destruct (Z.gtb_spec (GraphicFeature.start f) (GraphicFeature.end_ f)); [|lia].
    destruct (Qle_bool_spec
      (inject_Z (n - GraphicFeature.start f + GraphicFeature.end_ f) * 0.5
       + inject_Z (GraphicFeature.start f)) (inject_Z n)) as [Hle|Hgt].
    + split; [|split; [exact Hle|]].
      * unfold Qlt, Qplus, Qmult, inject_Z; cbn [Qnum Qden]. lia.
      * revert Hle. unfold Qle, Qeq, Qplus, Qmult, inject_Z; cbn [Qnum Qden]. lia.
    + assert (Hgt' : n < GraphicFeature.start f + GraphicFeature.end_ f).
      { apply Z.nle_gt. intros Hc. apply Hgt.
        unfold Qle, Qplus, Qmult, inject_Z; cbn [Qnum Qden]. lia. }
      split; [|split].
      * unfold Qlt, Qminus, Qopp, Qplus, Qmult, inject_Z; cbn [Qnum Qden]. lia.
      * unfold Qle, Qminus, Qopp, Qplus, Qmult, inject_Z; cbn [Qnum Qden]. lia.
      * unfold Qeq, Qminus, Qopp, Qplus, Qmult, inject_Z; cbn [Qnum Qden]. lia.
Qed.

(** C6, evaluated where the code departs from it: on the feature [[0, 10)]
    of a sequence of length 100, [x_center] is 4.5 and [x_center_circular]
    is 5; on the origin-spanning feature from 14 to 6 of a sequence of
    length 20, [x_center_circular] is 20, which is not below the sequence
    length. *)
Theorem circular_center_failing_inputs :
  (GraphicFeature.x_center (GraphicFeature.init 0 10 None None) == (9 # 2))%Q /\
  (GraphicFeature.x_center_circular (GraphicFeature.init 0 10 None None) 100 == 5)%Q /\
  ~ (GraphicFeature.x_center_circular (GraphicFeature.init 0 10 None None) 100
     == GraphicFeature.x_center (GraphicFeature.init 0 10 None None))%Q /\
  (GraphicFeature.x_center_circular (GraphicFeature.init 14 6 None None) 20 == 20)%Q /\
  ~ (GraphicFeature.x_center_circular (GraphicFeature.init 14 6 None None) 20 < 20)%Q.
Proof.
  repeat split; try reflexivity; vm_compute; congruence.
Qed.

(** ** Level assignment on features that do not reach the origin *)

Lemma insert_by_start_perm (x : Levels.placed) (l : list Levels.placed) :
  Levels.insert_by_start x l ≡ₚ x :: l.
Proof.
  induction l as [|y l IH]; simpl; [reflexivity|].
  destruct (GraphicFeature.start (snd x) <? GraphicFeature.start (snd y));
    [reflexivity|].
  rewrite IH. apply Permutation_swap.
Qed.

Lemma insert_by_start_sorted (x : Levels.placed) (l : list Levels.placed) :
  StronglySorted le_start l -> StronglySorted le_start (Levels.insert_by_start x l).
Proof.
  induction 1 as [|y l Hl IH Hy]; simpl.
  - repeat constructor.
  - destruct (Z.ltb_spec (GraphicFeature.start (snd x)) (GraphicFeature.start (snd y))).
    + constructor; [constructor; assumption|].
      constructor; [unfold le_start; lia|].
      eapply Forall_impl; [exact Hy|]. unfold le_start. intros z Hz. lia.
    + constructor; [exact IH|].
      rewrite insert_by_start_perm. constructor; [unfold le_start; lia | exact Hy].
Qed.

Lemma sort_by_start_spec (l : list Levels.placed) :
  Levels.sort_by_start l ≡ₚ l /\ StronglySorted le_start (Levels.sort_by_start l).
Proof.
  unfold Levels.sort_by_start.
  enough (forall acc, StronglySorted le_start acc ->
            foldl (fun acc x => Levels.insert_by_start x acc) acc l ≡ₚ acc ++ l /\
            StronglySorted le_start
              (foldl (fun acc x => Levels.insert_by_start x acc) acc l)) as H
    by (apply (H []); constructor).
  induction l as [|x l IH]; intros acc Hacc; simpl.
  - rewrite app_nil_r. split; [reflexivity | assumption].
  - destruct (IH (Levels.insert_by_start x acc)) as [Hp Hs];
      [now apply insert_by_start_sorted|].
    split; [|exact Hs].
    rewrite Hp, insert_by_start_perm. apply Permutation_middle.
Qed.

Lemma enumerate_lookup (fs : list GraphicFeature.t) (i : nat) (f : GraphicFeature.t) :
  (i, f) ∈ zip (seq 0 (length fs)) fs <-> fs !! i = Some f.
Proof.
  rewrite list_elem_of_lookup. split.
  - intros [k Hk]. apply lookup_zip_with_Some in Hk as (a & b & [= <- <-] & Ha & Hb).
    apply lookup_seq in Ha as [-> _]. exact Hb.
  - intros H. exists i. apply lookup_zip_with_Some. exists i, f.
    split; [reflexivity|]. split; [|exact H].
    apply lookup_seq. split; [reflexivity|]. now apply lookup_lt_Some in H.
Qed.

Lemma enumerate_identities (fs : list GraphicFeature.t) :
  fst <$> zip (seq 0 (length fs)) fs = seq 0 (length fs).
Proof. apply fst_zip. now rewrite length_seq. Qed.

Section FirstFree.
Variable csl : option Z.

Lemma overlaps_with_meet (a b : GraphicFeature.t) :
  linear a -> linear b -> GraphicFeature.overlaps_with a b csl = Ok (meet a b).
Proof. apply overlaps_with_intervals. Qed.

Lemma first_free_linear (f : GraphicFeature.t) (os : list GraphicFeature.t) :
  linear f -> Forall linear os ->
  (exists i o, Levels.first_free csl f os = Ok (Some i) /\
               os !! i = Some o /\ meet o f = false) \/
  (Levels.first_free csl f os = Ok None /\
   Forall (fun o => meet o f = true) os).
Proof.
  intros Hf. induction 1 as [|o os Ho Hos IH]; simpl.
  - right. split; [reflexivity | constructor].
  - rewrite (overlaps_with_meet o f Ho Hf), bind_ok.
    destruct (meet o f) eqn:E.
    + destruct IH as [(i & o' & -> & Hi & Hm) | [-> Hall]].
      * left. exists (S i), o'. repeat split; assumption.
      * right. split; [reflexivity|]. constructor; assumption.
    + left. exists 0%nat, o. repeat split. exact E.
Qed.
End FirstFree.

Lemma NoDup_map_eq {A B} (g : A -> B) (l : list A) (a b : A) :
  NoDup (g <$> l) -> a ∈ l -> b ∈ l -> g a = g b -> a = b.
Proof.
  induction l as [|x l IH]; cbn [fmap list_fmap]; intros Hnd Ha Hb Hg.
  - now apply elem_of_nil in Ha.
  - apply NoDup_cons in Hnd as [Hx Hnd].
    apply elem_of_cons in Ha as [->|Ha], Hb as [->|Hb].
    + reflexivity.
    + exfalso. apply Hx. rewrite Hg. now apply list_elem_of_fmap_2.
    + exfalso. apply Hx. rewrite <- Hg. now apply list_elem_of_fmap_2.
    + now apply IH.
Qed.

Lemma meet_false_end (o f : GraphicFeature.t) :
  linear o -> linear f ->
  GraphicFeature.start o <= GraphicFeature.start f ->
  meet o f = false -> GraphicFeature.end_ o <= GraphicFeature.start f.
Proof.
  unfold linear, meet. intros Ho Hf Hs H.
  apply Z.ltb_ge in H. lia.
Qed.

Lemma meet_apart (a b : GraphicFeature.t) :
  GraphicFeature.end_ a <= GraphicFeature.start b ->
  meet a b = false /\ meet b a = false.
Proof. unfold meet. intros H. split; apply Z.ltb_ge; lia. Qed.

Lemma meet_true_start (o f : GraphicFeature.t) :
  GraphicFeature.start o <= GraphicFeature.start f ->
  meet o f = true -> GraphicFeature.start f < GraphicFeature.end_ o.
Proof. unfold meet. intros Hs H. apply Z.ltb_lt in H. lia. Qed.

Lemma common_point_meet (a b : GraphicFeature.t) (t : Z) :
  GraphicFeature.start a <= t < GraphicFeature.end_ a ->
  GraphicFeature.start b <= t < GraphicFeature.end_ b ->
  meet a b = true.
Proof. unfold meet. intros Ha Hb. apply Z.ltb_lt. lia. Qed.

Lemma occupants_identities (st : Levels.state) (O : list Levels.placed) :
  NoDup (identity_of <$> Levels.levels st) ->
  (forall lv p, O !! lv = Some p -> (p, lv) ∈ Levels.levels st) ->
  NoDup (fst <$> O).
Proof.
  intros Hnd HO. apply NoDup_alt. intros i j k Hi Hj.
  apply list_lookup_fmap_Some in Hi as (p & -> & Hp).
  apply list_lookup_fmap_Some in Hj as (q & Hq' & Hq).
  pose proof (NoDup_map_eq identity_of _ (p, i) (q, j) Hnd
                (HO _ _ Hp) (HO _ _ Hq) Hq') as [= _ ->].
  reflexivity.
Qed.

Section Placement.
Variable csl : option Z.

(** Placing a feature on the level of an occupant it does not meet. *)
Lemma place_reuse_inv (b : Z) (st : Levels.state) (x : Levels.placed)
    (i : nat) (o : GraphicFeature.t) :
  levels_inv b st -> linear (snd x) ->
  b <= GraphicFeature.start (snd x) ->
  fst x ∉ identity_of <$> Levels.levels st ->
  Levels.occupants st !! i = Some o -> meet o (snd x) = false ->
  levels_inv (GraphicFeature.start (snd x))
    {| Levels.occupants := <[i := snd x]> (Levels.occupants st);
       Levels.levels := Levels.levels st ++ [(x, i)] |}.
Proof.
  intros [Hlin Hlev [O [HO HOl]] Hap Hst Hcl Hid] Hx Hb Hfresh Hi Hm.
  assert (Hi' : (i < length (Levels.occupants st))%nat)
    by now apply lookup_lt_Some in Hi.
  assert (Ho : linear o)
    by (rewrite Forall_forall in Hlin; apply Hlin;
        now apply list_elem_of_lookup_2 in Hi).
  assert (Hoi : exists p, O !! i = Some p /\ snd p = o).
  { rewrite <- HO in Hi. apply list_lookup_fmap_Some in Hi as (p & -> & Hp). eauto. }
  destruct Hoi as (po & Hpo & <-).
  assert (HlenO : length O = length (Levels.occupants st))
    by (rewrite <- HO; symmetry; apply length_fmap).
  assert (Hend : GraphicFeature.end_ (snd po) <= GraphicFeature.start (snd x)).
  { apply meet_false_end; try assumption.
    pose proof (Hst _ _ (HOl _ _ Hpo)). lia. }
  assert (Hold : forall y, (y, i) ∈ Levels.levels st ->
            GraphicFeature.end_ (snd y) <= GraphicFeature.start (snd x)).
  { intros y Hy. destruct (Hlev _ _ Hy) as (o' & Ho' & Hle).
    rewrite Hi in Ho'. injection Ho' as <-. lia. }
  split; cbn [Levels.occupants Levels.levels].
  - now apply Forall_insert.
  - intros y lv Hy. apply elem_of_app in Hy as [Hy|Hy].
    + destruct (decide (lv = i)) as [->|Hne].
      * exists (snd x). split; [now apply list_lookup_insert_eq|].
        specialize (Hold _ Hy). unfold linear in Hx. lia.
      * destruct (Hlev _ _ Hy) as (o' & Ho' & Hle). exists o'.
        split; [|exact Hle]. now rewrite list_lookup_insert_ne.
    + apply list_elem_of_singleton in Hy as [= -> ->].
      exists (snd x). split; [now apply list_lookup_insert_eq | lia].
  - exists (<[i := x]> O). split.
    + now rewrite list_fmap_insert, HO.
    + intros lv p Hp. destruct (decide (lv = i)) as [->|Hne].
      * rewrite list_lookup_insert_eq in Hp by (rewrite HlenO; exact Hi').
        injection Hp as <-. apply elem_of_app. right. now apply list_elem_of_singleton.
      * rewrite list_lookup_insert_ne in Hp by congruence.
        apply elem_of_app. left. now apply HOl.
  - intros y z lv Hy Hz Hne.
    apply elem_of_app in Hy as [Hy|Hy], Hz as [Hz|Hz].
    + now apply (Hap y z lv).
    + apply list_elem_of_singleton in Hz as [= -> ->].
      exact (proj1 (meet_apart _ _ (Hold _ Hy))).
    + apply list_elem_of_singleton in Hy as [= -> ->].
      exact (proj2 (meet_apart _ _ (Hold _ Hz))).
    + apply list_elem_of_singleton in Hy as [= -> ->].
      apply list_elem_of_singleton in Hz as [= ->]. congruence.
  - intros y lv Hy. apply elem_of_app in Hy as [Hy|Hy].
    + specialize (Hst _ _ Hy). lia.
    + apply list_elem_of_singleton in Hy as [= -> ->]. lia.
  - destruct Hcl as (C & Hlen & Hnd & Hin & t & Ht).
    exists C. split; [now rewrite length_insert|]. split; [exact Hnd|].
    split; [|exists t; exact Ht].
    intros p Hp. destruct (Hin p Hp) as [lv Hlv]. exists lv.
    apply elem_of_app. now left.
  - rewrite fmap_app. apply NoDup_app. split; [exact Hid|].
    split; [|apply NoDup_singleton].
    intros k Hk Hk'. apply list_elem_of_singleton in Hk'. subst k.
    now apply Hfresh.
Qed.
End Placement.

(** Opening a new level for a feature that meets every occupant. *)
Lemma place_open_inv (b : Z) (st : Levels.state) (x : Levels.placed) :
  levels_inv b st -> linear (snd x) ->
  b <= GraphicFeature.start (snd x) ->
  fst x ∉ identity_of <$> Levels.levels st ->
  Forall (fun o => meet o (snd x) = true) (Levels.occupants st) ->
  levels_inv (GraphicFeature.start (snd x))
    {| Levels.occupants := Levels.occupants st ++ [snd x];
       Levels.levels := Levels.levels st ++ [(x, length (Levels.occupants st))] |}.
Proof.
  intros [Hlin Hlev [O [HO HOl]] Hap Hst Hcl Hid] Hx Hb Hfresh Hall.
  assert (HlenO : length O = length (Levels.occupants st))
    by (rewrite <- HO; symmetry; apply length_fmap).
  assert (Hlt : forall y lv, (y, lv) ∈ Levels.levels st ->
            (lv < length (Levels.occupants st))%nat).
  { intros y lv Hy. destruct (Hlev _ _ Hy) as (o & Ho & _).
    now apply lookup_lt_Some in Ho. }
  split; cbn [Levels.occupants Levels.levels].
  - apply Forall_app. split; [exact Hlin | now repeat constructor].
  - intros y lv Hy. apply elem_of_app in Hy as [Hy|Hy].
    + destruct (Hlev _ _ Hy) as (o & Ho & Hle). exists o.
      split; [|exact Hle]. now apply lookup_app_l_Some.
    + apply list_elem_of_singleton in Hy as [= -> ->]. exists (snd x).
      split; [|lia]. rewrite lookup_app_r by lia. now rewrite Nat.sub_diag.
  - exists (O ++ [x]). split; [now rewrite fmap_app, HO|].
    intros lv p Hp. apply lookup_app_Some in Hp as [Hp|[Hge Hp]].
    + apply elem_of_app. left. now apply HOl.
    + apply list_lookup_singleton_Some in Hp as [Hlv <-].
      replace lv with (length (Levels.occupants st)) by lia.
      apply elem_of_app. right. now apply list_elem_of_singleton.
  - intros y z lv Hy Hz Hne.
    apply elem_of_app in Hy as [Hy|Hy], Hz as [Hz|Hz].
    + now apply (Hap y z lv).
    + apply list_elem_of_singleton in Hz as [= -> ->].
      specialize (Hlt _ _ Hy). lia.
    + apply list_elem_of_singleton in Hy as [= -> ->].
      specialize (Hlt _ _ Hz). lia.
    + apply list_elem_of_singleton in Hy as [= -> ->].
      apply list_elem_of_singleton in Hz as [= ->]. congruence.
  - intros y lv Hy. apply elem_of_app in Hy as [Hy|Hy].
    + specialize (Hst _ _ Hy). lia.
    + apply list_elem_of_singleton in Hy as [= -> ->]. lia.
  - exists (x :: O). split; [|split; [|split]].
    + rewrite length_app. simpl. lia.
    + cbn [fmap list_fmap]. apply NoDup_cons. split.
      * intros Hin. apply list_elem_of_fmap in Hin as (p & Hp1 & Hp).
        apply list_elem_of_lookup in Hp as [lv Hp]. apply Hfresh.
        apply list_elem_of_fmap. exists (p, lv). split; [exact Hp1 | now apply HOl].
      * now apply (occupants_identities st).
    + intros p Hp. apply elem_of_cons in Hp as [->|Hp].
      * exists (length (Levels.occupants st)). apply elem_of_app. right.
        now apply list_elem_of_singleton.
      * apply list_elem_of_lookup in Hp as [lv Hp]. exists lv.
        apply elem_of_app. left. now apply HOl.
    + exists (GraphicFeature.start (snd x)).
      intros p Hp. apply elem_of_cons in Hp as [->|Hp]; [unfold linear in Hx; lia|].
      apply list_elem_of_lookup in Hp as [lv Hp].
      pose proof (Hst _ _ (HOl _ _ Hp)) as Hsp.
      assert (Hm : meet (snd p) (snd x) = true).
      { rewrite Forall_forall in Hall. apply Hall. rewrite <- HO.
        apply list_elem_of_fmap. exists p. split; [reflexivity|].
        now apply list_elem_of_lookup_2 in Hp. }
      apply meet_true_start in Hm; lia.
  - rewrite fmap_app. apply NoDup_app. split; [exact Hid|].
    split; [|apply NoDup_singleton].
    intros k Hk Hk'. apply list_elem_of_singleton in Hk'. subst k.
    now apply Hfresh.
Qed.

Section PlaceAll.
Variable csl : option Z.

Lemma place_inv (b : Z) (st : Levels.state) (x : Levels.placed) :
  levels_inv b st -> linear (snd x) ->
  b <= GraphicFeature.start (snd x) ->
  fst x ∉ identity_of <$> Levels.levels st ->
  exists st', Levels.place csl st x = Ok st' /\
              levels_inv (GraphicFeature.start (snd x)) st' /\
              fst <$> Levels.levels st' = (fst <$> Levels.levels st) ++ [x].
Proof.
  intros Hinv Hx Hb Hfresh. unfold Levels.place.
  destruct (first_free_linear csl (snd x) (Levels.occupants st) Hx
              (inv_linear _ _ Hinv))
    as [(i & o & -> & Hi & Hm) | [-> Hall]]; rewrite bind_ok.
  - eexists. split; [reflexivity|]. split.
    + now apply (place_reuse_inv b st x i o).
    + cbn [Levels.levels]. now rewrite fmap_app.
  - eexists. split; [reflexivity|]. split.
    + now apply (place_open_inv b st x).
    + cbn [Levels.levels]. now rewrite fmap_app.
Qed.

Lemma place_all_inv (xs : list Levels.placed) :
  forall (b : Z) (st : Levels.state),
    levels_inv b st ->
    Forall (fun x => linear (snd x)) xs ->
    StronglySorted le_start xs ->
    Forall (fun x => b <= GraphicFeature.start (snd x)) xs ->
    NoDup ((identity_of <$> Levels.levels st) ++ (fst <$> xs)) ->
    exists st' b',
      Levels.place_all csl st xs = Ok st' /\ levels_inv b' st' /\
      fst <$> Levels.levels st' = (fst <$> Levels.levels st) ++ xs.
Proof.
  induction xs as [|x xs IH]; intros b st Hinv Hlin Hsort Hb Hnd.
  - exists st, b. simpl. rewrite app_nil_r. auto.
  - apply Forall_cons in Hlin as [Hx Hlin].
    apply StronglySorted_inv in Hsort as [Hsort Hle].
    apply Forall_cons in Hb as [Hbx _].
    assert (Hfresh : fst x ∉ identity_of <$> Levels.levels st).
    { apply NoDup_app in Hnd as (_ & Hdis & _). intros Hin.
      apply (Hdis _ Hin). cbn [fmap list_fmap]. apply elem_of_cons. now left. }
    destruct (place_inv b st x Hinv Hx Hbx Hfresh) as (st1 & Hpl & Hinv1 & Hlv1).
    assert (Hid1 : identity_of <$> Levels.levels st1
                   = (identity_of <$> Levels.levels st) ++ [fst x]).
    { pose proof (f_equal (fmap fst) Hlv1) as H1.
      rewrite fmap_app, <- !list_fmap_compose in H1. exact H1. }
    destruct (IH (GraphicFeature.start (snd x)) st1 Hinv1 Hlin Hsort Hle)
      as (st' & b' & Hall & Hinv' & Hlv').
    { rewrite Hid1, <- app_assoc. exact Hnd. }
    exists st', b'. cbn [Levels.place_all]. rewrite Hpl, bind_ok.
    split; [exact Hall|]. split; [exact Hinv'|].
    rewrite Hlv', Hlv1, <- app_assoc. reflexivity.
Qed.
End PlaceAll.

Lemma levels_inv_init (b : Z) :
  levels_inv b {| Levels.occupants := []; Levels.levels := [] |}.
Proof.
  split; cbn [Levels.occupants Levels.levels].
  - constructor.
  - intros x lv H. now apply elem_of_nil in H.
  - exists []. split; [reflexivity|]. intros lv p H. discriminate.
  - intros x y lv H. now apply elem_of_nil in H.
  - intros x lv H. now apply elem_of_nil in H.
  - exists []. split; [reflexivity|]. split; [constructor|].
    split; [intros p H; now apply elem_of_nil in H|].
    exists 0. intros p H. now apply elem_of_nil in H.
  - constructor.
Qed.

Lemma sorted_lower_bound (xs : list Levels.placed) :
  StronglySorted le_start xs ->
  exists b, Forall (fun x => b <= GraphicFeature.start (snd x)) xs.
Proof.
  destruct 1 as [|x xs Hs Hle].
  - exists 0. constructor.
  - exists (GraphicFeature.start (snd x)). constructor; [lia | exact Hle].
Qed.

(** Features that share a position need pairwise distinct colours. *)
Lemma clique_needs_colours (csl : option Z) (fs : list GraphicFeature.t)
    (C : list Levels.placed) (t : Z) (colour : nat -> nat) (palette : list nat) :
  NoDup (fst <$> C) ->
  (forall p, p ∈ C -> fs !! fst p = Some (snd p)) ->
  (forall p, p ∈ C ->
     GraphicFeature.start (snd p) <= t < GraphicFeature.end_ (snd p)) ->
  (forall i, (i < length fs)%nat -> colour i ∈ palette) ->
  (forall i j f g, i <> j -> fs !! i = Some f -> fs !! j = Some g ->
     GraphicFeature.overlaps_with f g csl = Ok true -> colour i <> colour j) ->
  (length C <= length palette)%nat.
Proof.
  intros Hnd Hfs Ht Hpal Hproper.
  rewrite <- (length_fmap (fun p => colour (fst p)) C).
  apply submseteq_length, NoDup_submseteq.
  - clear Hpal. induction C as [|p C IH]; cbn [fmap list_fmap]; [constructor|].
    cbn [fmap list_fmap] in Hnd. apply NoDup_cons in Hnd as [Hp Hnd].
    apply NoDup_cons. split.
    + intros Hin. apply list_elem_of_fmap in Hin as (q & Hcq & Hq).
      assert (Hne : fst p <> fst q).
      { intros Heq. apply Hp. rewrite Heq. now apply list_elem_of_fmap_2. }
      assert (Hpt := Ht p (list_elem_of_here _ _)).
      assert (Hqt := Ht q (list_elem_of_further _ _ _ Hq)).
      apply (Hproper (fst p) (fst q) (snd p) (snd q) Hne).
      * apply Hfs. apply list_elem_of_here.
      * apply Hfs. now apply list_elem_of_further.
      * rewrite overlaps_with_intervals by (unfold linear; lia).
        f_equal. now apply (common_point_meet _ _ t).
      * exact Hcq.
    + apply IH; [exact Hnd | |].
      * intros q Hq. apply Hfs. now apply list_elem_of_further.
      * intros q Hq. apply Ht. now apply list_elem_of_further.
  - intros c Hc. apply list_elem_of_fmap in Hc as (p & -> & Hp).
    apply Hpal. specialize (Hfs p Hp). now apply lookup_lt_Some in Hfs.
Qed.

(** C9 (as amended). On features that all have [start < end], whether or
    not the sequence length is supplied, the level assignment succeeds,
    gives every feature one level, uses every level below the number it
    reports and no other, never puts two features that overlap on the same
    level, and reports no more levels than any assignment of colours that
    separates overlapping features has colours. *)
Theorem level_assignment_linear (csl : option Z) (fs : list GraphicFeature.t) :
  Forall linear fs ->
  exists (asg : list (Levels.placed * nat)) (n : nat),
    Levels.compute_features_levels csl fs = Ok (asg, n) /\
    fst <$> asg ≡ₚ zip (seq 0 (length fs)) fs /\
    (forall x lv, (x, lv) ∈ asg -> (lv < n)%nat) /\
    (forall lv, (lv < n)%nat -> exists x, (x, lv) ∈ asg) /\
    (forall x y lv, (x, lv) ∈ asg -> (y, lv) ∈ asg -> fst x <> fst y ->
       GraphicFeature.overlaps_with (snd x) (snd y) csl = Ok false) /\
    (forall (colour : nat -> nat) (palette : list nat),
       (forall i, (i < length fs)%nat -> colour i ∈ palette) ->
       (forall i j f g, i <> j -> fs !! i = Some f -> fs !! j = Some g ->
          GraphicFeature.overlaps_with f g csl = Ok true ->
          colour i <> colour j) ->
       (n <= length palette)%nat).
Proof.
  intros Hfs.
  destruct (sort_by_start_spec (zip (seq 0 (length fs)) fs)) as [Hperm Hsorted].
  set (xs := Levels.sort_by_start (zip (seq 0 (length fs)) fs)) in *.
  assert (Hmem : forall x, x ∈ xs -> fs !! fst x = Some (snd x)).
  { intros [i f] Hx. rewrite Hperm in Hx. now apply enumerate_lookup. }
  assert (Hlin : Forall (fun x => linear (snd x)) xs).
  { apply Forall_forall. intros x Hx. rewrite Forall_forall in Hfs.
    apply Hfs. apply Hmem in Hx. now apply list_elem_of_lookup_2 in Hx. }
  assert (Hnd : NoDup (fst <$> xs)).
  { rewrite Hperm, enumerate_identities. apply NoDup_seq. }
  destruct (sorted_lower_bound xs Hsorted) as [b Hb].
  destruct (place_all_inv csl xs b _ (levels_inv_init b) Hlin Hsorted Hb Hnd)
    as (st & b' & Hall & Hinv & Hlv).
  cbn [Levels.levels fmap list_fmap app] in Hlv.
  exists (Levels.levels st), (length (Levels.occupants st)).
  assert (Hin : forall x lv, (x, lv) ∈ Levels.levels st -> x ∈ xs).
  { intros x lv Hx. rewrite <- Hlv. apply list_elem_of_fmap.
    exists (x, lv). split; [reflexivity | exact Hx]. }
  split.
  { unfold Levels.compute_features_levels. fold xs. now rewrite Hall. }
  split; [now rewrite Hlv|].
  split.
  { intros x lv Hx. destruct (inv_level _ _ Hinv _ _ Hx) as (o & Ho & _).
    now apply lookup_lt_Some in Ho. }
  split.
  { intros lv Hlt. destruct (inv_occupant _ _ Hinv) as (O & HO & HOl).
    destruct (lookup_lt_is_Some_2 O lv) as [p Hp].
    - rewrite <- (length_fmap snd O), HO. exact Hlt.
    - exists p. now apply HOl. }
  split.
  { intros x y lv Hx Hy Hne.
    rewrite Forall_forall in Hlin.
    rewrite overlaps_with_intervals
      by (apply Hlin; eapply Hin; eassumption).
    f_equal. now apply (inv_apart _ _ Hinv x y lv). }
  intros colour palette Hpal Hproper.
  destruct (inv_clique _ _ Hinv) as (C & <- & HndC & HC & t & Ht).
  apply (clique_needs_colours csl fs C t colour palette); try assumption.
  intros p Hp. destruct (HC p Hp) as [lv Hplv]. apply Hmem. now apply (Hin p lv).
Qed.

Lemma level_assignment_linear_witness :
  exists (asg : list (Levels.placed * nat)) (n : nat),
    Levels.compute_features_levels None
      [GraphicFeature.init 5 20 (Some 1) None;
       GraphicFeature.init 20 500 (Some 1) None;
       GraphicFeature.init 400 700 (Some (-1)) None;
       GraphicFeature.init 600 900 (Some 1) None] = Ok (asg, n).
Proof.
  destruct (level_assignment_linear None
      [GraphicFeature.init 5 20 (Some 1) None;
       GraphicFeature.init 20 500 (Some 1) None;
       GraphicFeature.init 400 700 (Some (-1)) None;
       GraphicFeature.init 600 900 (Some 1) None]) as (asg & n & H & _).
  - repeat constructor.
  - exists asg, n. exact H.
Defined.

(** C9, as stated for circular records too, fails on the level assignment
    described: on a circular sequence of length 100 the features [0, 20),
    [30, 40) and the origin-spanning one from 90 to 10 are all given level
    0, although the first and the last overlap. *)
Lemma level_assignment_circular_counterexample :
  let a := GraphicFeature.init 0 20 None None in
  let b := GraphicFeature.init 30 40 None None in
  let w := GraphicFeature.init 90 10 None None in
  Levels.compute_features_levels (Some 100) [a; b; w]
  = Ok ([((0%nat, a), 0%nat); ((1%nat, b), 0%nat); ((2%nat, w), 0%nat)], 1%nat) /\
  GraphicFeature.overlaps_with a w (Some 100) = Ok true.
Proof. split; vm_compute; reflexivity. Qed.

(** * Further properties *)

(** ** Symmetry of the overlap test *)

Lemma pair_step_sym (r1 r2 : Z * option Z) : pair_step r1 r2 = pair_step r2 r1.
Proof.
  destruct r1 as [x1 [y1|]], r2 as [x2 [y2|]];
    unfold pair_step, sorted, py_gt; cbn -[Z.ltb Z.eqb];
    rewrite (Z.eqb_sym x1 x2);
    destruct (Z.eqb_spec x2 x1); cbn -[Z.ltb Z.eqb];
    try rewrite (Z.eqb_sym y1 y2);
    repeat match goal with
    | |- context [Z.eqb ?a ?b] => destruct (Z.eqb_spec a b); cbn -[Z.ltb Z.eqb]
    | |- context [Z.ltb ?a ?b] => destruct (Z.ltb_spec a b); cbn -[Z.ltb Z.eqb]
    end; try reflexivity; try (f_equal; lia); lia.
Qed.

Lemma existsb_swap {A B} (p : A -> B -> bool) (l1 : list A) (l2 : list B) :
  existsb (fun a => existsb (fun b => p a b) l2) l1
  = existsb (fun b => existsb (fun a => p a b) l1) l2.
Proof.
  apply eq_true_iff_eq. rewrite !existsb_exists. split.
  - intros (x & Hx & H). apply existsb_exists in H as (y & Hy & H).
    exists y. split; [exact Hy|]. apply existsb_exists. eauto.
  - intros (y & Hy & H). apply existsb_exists in H as (x & Hx & H).
    exists x. split; [exact Hx|]. apply existsb_exists. eauto.
Qed.

(** [overlaps_with] is symmetric: the two call orders return the same
    boolean or raise the same exception, whatever the features and whether
    or not the sequence length is supplied. *)
Theorem overlaps_with_symmetric (a b : GraphicFeature.t) (csl : option Z) :
  GraphicFeature.overlaps_with a b csl = GraphicFeature.overlaps_with b a csl.
Proof.
  rewrite !overlaps_with_outcome.
  rewrite (orb_comm (GraphicFeature.start a >? GraphicFeature.end_ a)).
  rewrite (existsb_swap pair_raises), (existsb_swap pair_true).
  assert (Hext : forall (p q : Z * option Z -> Z * option Z -> bool)
                        (l1 l2 : list (Z * option Z)),
    (forall x y, p x y = q y x) ->
    existsb (fun y => existsb (fun x => p x y) l1) l2
    = existsb (fun y => existsb (q y) l1) l2).
  { intros p q l1 l2 Hpq. induction l2 as [|y l2 IH]; cbn [existsb]; [reflexivity|].
    rewrite IH. f_equal. clear IH.
    induction l1 as [|x l1 IH]; cbn [existsb]; [reflexivity|].
    now rewrite IH, Hpq. }
  rewrite (Hext pair_raises pair_raises), (Hext pair_true pair_true);
    [reflexivity | |];
    intros x y; unfold pair_true, pair_raises; now rewrite (pair_step_sym x y).
Qed.

(** ** Overlap as sharing a position *)

(** Two features with [start < end] overlap exactly when their half-open
    spans share a position; otherwise the answer is false. *)
Theorem overlaps_with_shares_position (a b : GraphicFeature.t) (csl : option Z) :
  GraphicFeature.start a < GraphicFeature.end_ a ->
  GraphicFeature.start b < GraphicFeature.end_ b ->
  (GraphicFeature.overlaps_with a b csl = Ok true <->
   exists z, covers a z /\ covers b z) /\
  (GraphicFeature.overlaps_with a b csl = Ok false <->
   ~ exists z, covers a z /\ covers b z).
Proof.
  intros Ha Hb. rewrite (overlaps_with_intervals a b csl Ha Hb). unfold covers.
  destruct (Z.ltb_spec (Z.max (GraphicFeature.start a) (GraphicFeature.start b))
              (Z.min (GraphicFeature.end_ a) (GraphicFeature.end_ b))) as [H|H].
  - assert (Hz : exists z,
      GraphicFeature.start a <= z < GraphicFeature.end_ a /\
      GraphicFeature.start b <= z < GraphicFeature.end_ b)
      by (exists (Z.max (GraphicFeature.start a) (GraphicFeature.start b)); lia).
    split; split; try reflexivity; try discriminate; tauto.
  - assert (Hz : ~ exists z,
      GraphicFeature.start a <= z < GraphicFeature.end_ a /\
      GraphicFeature.start b <= z < GraphicFeature.end_ b)
      by (intros [z Hz]; lia).
    split; split; try reflexivity; try discriminate; tauto.
Qed.

Lemma overlaps_with_shares_position_witness :
  GraphicFeature.overlaps_with (GraphicFeature.init 400 700 (Some (-1)) None)
    (GraphicFeature.init 600 900 (Some 1) None) None = Ok true.
Proof.
  apply (overlaps_with_shares_position
           (GraphicFeature.init 400 700 (Some (-1)) None)
           (GraphicFeature.init 600 900 (Some 1) None) None);
    [simpl; lia | simpl; lia |].
  exists 650. unfold covers. simpl. lia.
Defined.

Lemma strict_overlap_shares (n : Z) (r1 r2 : Z * Z) :
  0 <= fst r1 <= snd r1 -> snd r1 <= n ->
  fst r1 < snd r1 \/ fst r1 = n \/ snd r1 = 0 ->
  0 <= fst r2 <= snd r2 -> snd r2 <= n ->
  fst r2 < snd r2 \/ fst r2 = n \/ snd r2 = 0 ->
  strict_overlap r1 r2 = true <->
  exists z, fst r1 <= z < snd r1 /\ fst r2 <= z < snd r2.
Proof.
  destruct r1 as [x1 y1], r2 as [x2 y2]. cbn [fst snd].
  intros H1 H1n H1e H2 H2n H2e.
  unfold strict_overlap, range_lt. cbn [fst snd].
  split.
  - intros H. exists (Z.max x1 x2).
    destruct (Z.ltb_spec x2 x1), (Z.eqb_spec x2 x1), (Z.ltb_spec y2 y1);
      cbn [orb andb fst snd] in H; apply Z.gtb_lt in H; lia.
  - intros (z & Hz1 & Hz2).
    destruct (Z.ltb_spec x2 x1), (Z.eqb_spec x2 x1), (Z.ltb_spec y2 y1);
      cbn [orb andb fst snd]; apply Z.gtb_lt; lia.
Qed.

Lemma decompose_tame (n : Z) (f : GraphicFeature.t) :
  on_sequence n f ->
  Forall (fun r => (0 <= fst r <= snd r) /\ snd r <= n /\
                   (fst r < snd r \/ fst r = n \/ snd r = 0))
         (decompose f n).
Proof.
  unfold on_sequence, decompose. intros H.
  destruct (Z.ltb_spec (GraphicFeature.start f) (GraphicFeature.end_ f));
    repeat (apply Forall_cons_2 || apply Forall_nil_2); cbn [fst snd]; lia.
Qed.

Lemma shares_arc_iff (a b : GraphicFeature.t) (n : Z) :
  on_sequence n a -> on_sequence n b ->
  GraphicFeature.overlaps_with a b (Some n) = Ok true <->
  exists z, on_circle n a z /\ on_circle n b z.
Proof.
  intros Ha Hb. rewrite overlaps_with_circular. unfold on_circle, ranges_overlap.
  pose proof (decompose_tame n a Ha) as Ta.
  pose proof (decompose_tame n b Hb) as Tb.
  rewrite Forall_forall in Ta, Tb.
  split.
  - intros [= H]. apply existsb_exists in H as (r1 & H1 & H).
    apply existsb_exists in H as (r2 & H2 & H).
    apply list_elem_of_In in H1, H2.
    destruct (Ta r1 H1) as (? & ? & ?), (Tb r2 H2) as (? & ? & ?).
    apply (strict_overlap_shares n) in H as (z & Hz1 & Hz2); try assumption.
    exists z. split; apply Exists_exists; eauto.
  - intros (z & H1 & H2).
    apply Exists_exists in H1 as (r1 & H1 & Hz1).
    apply Exists_exists in H2 as (r2 & H2 & Hz2).
    f_equal. apply existsb_exists. exists r1.
    split; [now apply list_elem_of_In|].
    apply existsb_exists. exists r2. split; [now apply list_elem_of_In|].
    destruct (Ta r1 H1) as (? & ? & ?), (Tb r2 H2) as (? & ? & ?).
    apply (strict_overlap_shares n); try assumption. eauto.
Qed.

(** On a circular sequence, two features whose coordinates lie on the
    sequence overlap exactly when the arcs they are decomposed into share a
    position. *)
Theorem overlaps_with_shares_arc (a b : GraphicFeature.t) (n : Z) :
  on_sequence n a -> on_sequence n b ->
  GraphicFeature.overlaps_with a b (Some n) = Ok true <->
  exists z, on_circle n a z /\ on_circle n b z.
Proof. exact (shares_arc_iff a b n). Qed.

Lemma overlaps_with_shares_arc_witness :
  GraphicFeature.overlaps_with (GraphicFeature.init 14 6 None None)
    (GraphicFeature.init 2 8 None None) (Some 20) = Ok true.
Proof.
  apply (overlaps_with_shares_arc (GraphicFeature.init 14 6 None None)
           (GraphicFeature.init 2 8 None None) 20).
  - unfold on_sequence. simpl. lia.
  - unfold on_sequence. simpl. lia.
  - exists 3. split.
    + apply Exists_cons_tl, Exists_cons_hd. simpl. lia.
    + apply Exists_cons_hd. simpl. lia.
Defined.

(** A feature with [start = end] lying on a circular sequence is taken for
    the whole circle: it overlaps every feature with [start < end] that
    lies on the sequence. *)
Theorem zero_length_overlaps_all (a b : GraphicFeature.t) (n : Z) :
  GraphicFeature.start a = GraphicFeature.end_ a ->
  0 <= GraphicFeature.start a <= n ->
  0 <= GraphicFeature.start b ->
  GraphicFeature.start b < GraphicFeature.end_ b ->
  GraphicFeature.end_ b <= n ->
  GraphicFeature.overlaps_with a b (Some n) = Ok true.
Proof.
  intros Ha Han Hb0 Hb Hbn.
  apply shares_arc_iff; [unfold on_sequence; lia.. |].
  exists (GraphicFeature.start b). unfold on_circle, decompose.
  destruct (Z.ltb_spec (GraphicFeature.start a) (GraphicFeature.end_ a)); [lia|].
  destruct (Z.ltb_spec (GraphicFeature.start b) (GraphicFeature.end_ b)); [|lia].
  split; [|apply Exists_cons_hd; cbn [fst snd]; lia].
  destruct (Z_lt_dec (GraphicFeature.start b) (GraphicFeature.start a)).
  - apply Exists_cons_tl, Exists_cons_hd. cbn [fst snd]. lia.
  - apply Exists_cons_hd. cbn [fst snd]. lia.
Qed.

Lemma zero_length_overlaps_all_witness :
  GraphicFeature.overlaps_with (GraphicFeature.init 20 20 None None)
    (GraphicFeature.init 600 900 None None) (Some 1000) = Ok true.
Proof.
  apply (zero_length_overlaps_all (GraphicFeature.init 20 20 None None)
           (GraphicFeature.init 600 900 None None) 1000); simpl; lia.
Defined.

(** ** Cropping a feature, again *)

Lemma crop_some_bounds (f c : GraphicFeature.t) (s e : Z) :
  GraphicFeature.crop f (s, e) = Some c ->
  s <= GraphicFeature.end_ f /\ GraphicFeature.start f <= e /\
  GraphicFeature.start c = Z.max (GraphicFeature.start f) s /\
  GraphicFeature.end_ c = Z.min (GraphicFeature.end_ f) e.
Proof.
  intros H. assert (Hc := crop_some_inv f c s e H).
  unfold GraphicFeature.crop in H.
  destruct (Z.gtb_spec s (GraphicFeature.end_ f)),
           (Z.ltb_spec e (GraphicFeature.start f)); try discriminate.
  subst c.
  destruct (Z.gtb_spec s (GraphicFeature.start f)),
           (Z.ltb_spec e (GraphicFeature.end_ f)); cbn; lia.
Qed.

(** Cropping a feature with [start <= end] to a window with [s <= e] that
    it meets gives a feature with [start <= end] that lies inside both the
    window and the feature. *)
Theorem crop_within (f c : GraphicFeature.t) (s e : Z) :
  GraphicFeature.start f <= GraphicFeature.end_ f -> s <= e ->
  GraphicFeature.crop f (s, e) = Some c ->
  s <= GraphicFeature.start c /\
  GraphicFeature.start c <= GraphicFeature.end_ c /\
  GraphicFeature.end_ c <= e /\
  GraphicFeature.start f <= GraphicFeature.start c /\
  GraphicFeature.end_ c <= GraphicFeature.end_ f.
Proof.
  intros Hf Hw H. apply crop_some_bounds in H. lia.
Qed.

Lemma crop_within_witness :
  425 <= GraphicFeature.start
           (GraphicFeature.set_open_left true
              (GraphicFeature.set_start 425 (GraphicFeature.init 20 500 (Some 1) None))) /\
  GraphicFeature.start
    (GraphicFeature.set_open_left true
       (GraphicFeature.set_start 425 (GraphicFeature.init 20 500 (Some 1) None)))
  <= GraphicFeature.end_
       (GraphicFeature.set_open_left true
          (GraphicFeature.set_start 425 (GraphicFeature.init 20 500 (Some 1) None))) /\
  GraphicFeature.end_
    (GraphicFeature.set_open_left true
       (GraphicFeature.set_start 425 (GraphicFeature.init 20 500 (Some 1) None)))
  <= 650 /\
  GraphicFeature.start (GraphicFeature.init 20 500 (Some 1) None)
  <= GraphicFeature.start
       (GraphicFeature.set_open_left true
          (GraphicFeature.set_start 425 (GraphicFeature.init 20 500 (Some 1) None))) /\
  GraphicFeature.end_
    (GraphicFeature.set_open_left true
       (GraphicFeature.set_start 425 (GraphicFeature.init 20 500 (Some 1) None)))
  <= GraphicFeature.end_ (GraphicFeature.init 20 500 (Some 1) None).
Proof.
  apply (crop_within (GraphicFeature.init 20 500 (Some 1) None) _ 425 650);
    [simpl; lia | lia | reflexivity].
Defined.

Lemma crop_normal_form (f : GraphicFeature.t) (s e : Z) :
  GraphicFeature.crop f (s, e)
  = if (s >? GraphicFeature.end_ f) || (e <? GraphicFeature.start f) then None
    else Some
      (GraphicFeature.mk
         (Z.max (GraphicFeature.start f) s) (Z.min (GraphicFeature.end_ f) e)
         (GraphicFeature.strand f) (GraphicFeature.label f)
         (GraphicFeature.color f) (GraphicFeature.linecolor f)
         (GraphicFeature.data f) (GraphicFeature.thickness f)
         (GraphicFeature.linewidth f) (GraphicFeature.box_linewidth f)
         (GraphicFeature.box_color f) (GraphicFeature.fontdict f)
         (GraphicFeature.html f)
         (GraphicFeature.open_left f || (s >? GraphicFeature.start f))
         (GraphicFeature.open_right f || (e <? GraphicFeature.end_ f))).
Proof.
  destruct f as [fs fe ? ? ? ? ? ? ? ? ? ? ? ol or]. unfold GraphicFeature.crop.
  cbn [GraphicFeature.start GraphicFeature.end_ GraphicFeature.deepcopy
       GraphicFeature.strand GraphicFeature.label GraphicFeature.color
       GraphicFeature.linecolor GraphicFeature.data GraphicFeature.thickness
       GraphicFeature.linewidth GraphicFeature.box_linewidth
       GraphicFeature.box_color GraphicFeature.fontdict GraphicFeature.html
       GraphicFeature.open_left GraphicFeature.open_right].
  destruct ((s >? fe) || (e <? fs)); [reflexivity|]. f_equal.
  destruct (Z.gtb_spec s fs), (Z.ltb_spec e fe);
    unfold GraphicFeature.set_start, GraphicFeature.set_end,
      GraphicFeature.set_open_left, GraphicFeature.set_open_right;
    cbn [GraphicFeature.start GraphicFeature.end_
         GraphicFeature.strand GraphicFeature.label GraphicFeature.color
         GraphicFeature.linecolor GraphicFeature.data GraphicFeature.thickness
         GraphicFeature.linewidth GraphicFeature.box_linewidth
         GraphicFeature.box_color GraphicFeature.fontdict GraphicFeature.html
         GraphicFeature.open_left GraphicFeature.open_right];
    rewrite ?orb_true_r, ?orb_false_r; f_equal; lia.
Qed.

(** Cropping to a window and then to a window inside it is cropping to the
    inner window, open flags included; in particular cropping twice to the
    same window is cropping once. *)
Theorem crop_nested (f : GraphicFeature.t) (s1 e1 s2 e2 : Z) :
  s1 <= s2 -> s2 <= e2 -> e2 <= e1 ->
  (c ← GraphicFeature.crop f (s1, e1); GraphicFeature.crop c (s2, e2))
  = GraphicFeature.crop f (s2, e2).
Proof.
  intros H1 H2 H3.
  rewrite (crop_normal_form f s1 e1), (crop_normal_form f s2 e2).
  destruct (Z.gtb_spec s1 (GraphicFeature.end_ f)) as [Ha|Ha].
  { destruct (Z.gtb_spec s2 (GraphicFeature.end_ f)); [reflexivity | lia]. }
  destruct (Z.ltb_spec e1 (GraphicFeature.start f)) as [Hb|Hb].
  { destruct (Z.ltb_spec e2 (GraphicFeature.start f)); [|lia].
    cbn [orb mbind option_bind]. rewrite orb_true_r. reflexivity. }
  cbn [orb mbind option_bind]. rewrite crop_normal_form.
  cbn [GraphicFeature.start GraphicFeature.end_
       GraphicFeature.strand GraphicFeature.label GraphicFeature.color
       GraphicFeature.linecolor GraphicFeature.data GraphicFeature.thickness
       GraphicFeature.linewidth GraphicFeature.box_linewidth
       GraphicFeature.box_color GraphicFeature.fontdict GraphicFeature.html
       GraphicFeature.open_left GraphicFeature.open_right].
  assert (Hc1 : (s2 >? Z.min (GraphicFeature.end_ f) e1)
                = (s2 >? GraphicFeature.end_ f)).
  { destruct (Z.gtb_spec s2 (Z.min (GraphicFeature.end_ f) e1)),
             (Z.gtb_spec s2 (GraphicFeature.end_ f)); try reflexivity; lia. }
  assert (Hc2 : (e2 <? Z.max (GraphicFeature.start f) s1)
                = (e2 <? GraphicFeature.start f)).
  { destruct (Z.ltb_spec e2 (Z.max (GraphicFeature.start f) s1)),
             (Z.ltb_spec e2 (GraphicFeature.start f)); try reflexivity; lia. }
  rewrite Hc1, Hc2.
  destruct ((s2 >? GraphicFeature.end_ f) || (e2 <? GraphicFeature.start f));
    [reflexivity|].
  assert (Hl : (s1 >? GraphicFeature.start f)
               || (s2 >? Z.max (GraphicFeature.start f) s1)
               = (s2 >? GraphicFeature.start f)).
  { destruct (Z.gtb_spec s1 (GraphicFeature.start f)),
             (Z.gtb_spec s2 (Z.max (GraphicFeature.start f) s1)),
             (Z.gtb_spec s2 (GraphicFeature.start f)); try reflexivity; lia. }
  assert (Hr : (e1 <? GraphicFeature.end_ f)
               || (e2 <? Z.min (GraphicFeature.end_ f) e1)
               = (e2 <? GraphicFeature.end_ f)).
  { destruct (Z.ltb_spec e1 (GraphicFeature.end_ f)),
             (Z.ltb_spec e2 (Z.min (GraphicFeature.end_ f) e1)),
             (Z.ltb_spec e2 (GraphicFeature.end_ f)); try reflexivity; lia. }
  rewrite <- !orb_assoc, Hl, Hr. f_equal. f_equal; lia.
Qed.

Lemma crop_nested_witness :
  (c ← GraphicFeature.crop (GraphicFeature.init 20 500 (Some 1) None) (10, 650);
   GraphicFeature.crop c (425, 450))
  = GraphicFeature.crop (GraphicFeature.init 20 500 (Some 1) None) (425, 450).
Proof.
  apply (crop_nested (GraphicFeature.init 20 500 (Some 1) None) 10 650 425 450); lia.
Defined.

(** A feature with [start < end] cropped to a window with [s < e] keeps
    more than a single point exactly when it overlaps, in the sense of
    [overlaps_with], a feature that spans the window; a feature that only
    touches the window is kept by [crop] as a feature with [start = end]. *)
Theorem crop_keeps_overlap (f w : GraphicFeature.t) (csl : option Z) :
  GraphicFeature.start f < GraphicFeature.end_ f ->
  GraphicFeature.start w < GraphicFeature.end_ w ->
  ((exists c,
      GraphicFeature.crop f (GraphicFeature.start w, GraphicFeature.end_ w) = Some c /\
      GraphicFeature.start c < GraphicFeature.end_ c)
   <-> GraphicFeature.overlaps_with f w csl = Ok true) /\
  ((exists c,
      GraphicFeature.crop f (GraphicFeature.start w, GraphicFeature.end_ w) = Some c /\
      GraphicFeature.start c = GraphicFeature.end_ c)
   <-> GraphicFeature.start w = GraphicFeature.end_ f \/
       GraphicFeature.end_ w = GraphicFeature.start f).
Proof.
  intros Hf Hw. rewrite (overlaps_with_intervals f w csl Hf Hw).
  destruct (GraphicFeature.crop f (GraphicFeature.start w, GraphicFeature.end_ w))
    as [c|] eqn:E.
  - pose proof (crop_some_bounds _ _ _ _ E) as (H1 & H2 & H3 & H4).
    split; split.
    + intros (c' & [= <-] & Hc). f_equal. apply Z.ltb_lt. lia.
    + intros [= H]. apply Z.ltb_lt in H. exists c. split; [reflexivity | lia].
    + intros (c' & [= <-] & Hc). lia.
    + intros H. exists c. split; [reflexivity | lia].
  - unfold GraphicFeature.crop in E.
    destruct (Z.gtb_spec (GraphicFeature.start w) (GraphicFeature.end_ f)),
             (Z.ltb_spec (GraphicFeature.end_ w) (GraphicFeature.start f));
      try discriminate;
      (split; split;
       [ intros (c' & [=] & _)
       | intros [= Hlt]; apply Z.ltb_lt in Hlt; lia
       | intros (c' & [=] & _)
       | lia ]).
Qed.

Lemma crop_keeps_overlap_witness :
  exists c,
    GraphicFeature.crop (GraphicFeature.init 5 20 (Some 1) None)
      (GraphicFeature.start (GraphicFeature.init 20 30 None None),
       GraphicFeature.end_ (GraphicFeature.init 20 30 None None)) = Some c /\
    GraphicFeature.start c = GraphicFeature.end_ c.
Proof.
  apply (crop_keeps_overlap (GraphicFeature.init 5 20 (Some 1) None)
           (GraphicFeature.init 20 30 None None) None);
    [simpl; lia | simpl; lia |].
  left. reflexivity.
Defined.

(** ** Cropping a record, again *)

Lemma crop_record_ok (r r' : GraphicRecord.t) (s e : Z) :
  snd (GraphicRecord.crop (s, e) r) = Ok r' ->
  0 <= s /\ e < GraphicRecord.sequence_length r /\
  r' = {| GraphicRecord.features :=
            omap (fun f => GraphicFeature.crop f (s, e)) (GraphicRecord.features r);
          GraphicRecord.sequence_length := e - s;
          GraphicRecord.feature_level_height := GraphicRecord.feature_level_height r;
          GraphicRecord.sequence :=
            option_map (fun sq => slice sq s e) (GraphicRecord.sequence r);
          GraphicRecord.first_index := GraphicRecord.first_index r + s;
          GraphicRecord.plots_indexing := "biopython";
          GraphicRecord.labels_spacing := 8 |}.
Proof.
  unfold GraphicRecord.crop.
  destruct (Z.ltb_spec s 0), (Z.geb_spec e (GraphicRecord.sequence_length r));
    cbn [orb fst snd]; try discriminate.
  unfold GraphicRecord.init. rewrite bind_ok. intros [= <-].
  split; [lia|]. split; [lia|].
  f_equal.
  exact (crop_loop (s, e) (GraphicRecord.features r) []).
Qed.

(** The features of a cropped record keep the coordinates of the original
    sequence: when the record's features have [start <= end] and the window
    has [s <= e], every feature of the cropped record lies within [[s, e]]
    and has [start <= end]; there are no more features than before; and the
    span of the cropped record is the window moved by [first_index]. *)
Theorem crop_record_features (r r' : GraphicRecord.t) (s e : Z) :
  snd (GraphicRecord.crop (s, e) r) = Ok r' ->
  Forall (fun f => GraphicFeature.start f <= GraphicFeature.end_ f)
         (GraphicRecord.features r) ->
  s <= e ->
  Forall (fun c => s <= GraphicFeature.start c /\
                   GraphicFeature.start c <= GraphicFeature.end_ c /\
                   GraphicFeature.end_ c <= e)
         (GraphicRecord.features r') /\
  (length (GraphicRecord.features r') <= length (GraphicRecord.features r))%nat /\
  GraphicRecord.span r'
  = (GraphicRecord.first_index r + s, GraphicRecord.first_index r + e).
Proof.
  intros H Hfs Hw. apply crop_record_ok in H as (Hs & He & ->).
  cbn [GraphicRecord.features GraphicRecord.span GraphicRecord.first_index
       GraphicRecord.sequence_length].
  split; [|split].
  - apply Forall_forall. intros c Hc.
    apply list_elem_of_omap in Hc as (f & Hf & Hcrop).
    rewrite Forall_forall in Hfs. specialize (Hfs f Hf).
    apply crop_some_bounds in Hcrop. lia.
  - clear Hfs. induction (GraphicRecord.features r) as [|f fs IH].
    + reflexivity.
    + change (omap (fun f => GraphicFeature.crop f (s, e)) (f :: fs))
        with (match GraphicFeature.crop f (s, e) with
              | Some c => c :: omap (fun f => GraphicFeature.crop f (s, e)) fs
              | None => omap (fun f => GraphicFeature.crop f (s, e)) fs
              end).
      destruct (GraphicFeature.crop f (s, e)); cbn [length]; lia.
  - unfold GraphicRecord.span.
    cbn [GraphicRecord.first_index GraphicRecord.sequence_length].
    f_equal. lia.
Qed.

Lemma crop_record_features_witness :
  GraphicRecord.span
    {| GraphicRecord.features :=
         omap (fun f => GraphicFeature.crop f (10, 40))
              (GraphicRecord.features test_split_record);
       GraphicRecord.sequence_length := 40 - 10;
       GraphicRecord.feature_level_height :=
         GraphicRecord.feature_level_height test_split_record;
       GraphicRecord.sequence :=
         option_map (fun sq => slice sq 10 40) (GraphicRecord.sequence test_split_record);
       GraphicRecord.first_index := GraphicRecord.first_index test_split_record + 10;
       GraphicRecord.plots_indexing := "biopython";
       GraphicRecord.labels_spacing := 8 |}
  = (GraphicRecord.first_index test_split_record + 10,
     GraphicRecord.first_index test_split_record + 40).
Proof.
  apply (crop_record_features test_split_record _ 10 40).
  - reflexivity.
  - repeat (apply Forall_cons_2 || apply Forall_nil_2); simpl; lia.
  - lia.
Defined.

(** Cropping a cropped record to the same window always fails: the window
    is checked against the new length [e - s], which [e] never is below. *)
Theorem crop_record_twice (r r' : GraphicRecord.t) (s e : Z) :
  snd (GraphicRecord.crop (s, e) r) = Ok r' ->
  snd (GraphicRecord.crop (s, e) r') = Raise (ValueError "out-of-bound cropping").
Proof.
  intros H. apply crop_record_ok in H as (Hs & He & ->).
  unfold GraphicRecord.crop. cbn [GraphicRecord.sequence_length].
  destruct (Z.ltb_spec s 0), (Z.geb_spec e (e - s)); cbn [orb snd];
    try reflexivity; lia.
Qed.

Lemma crop_record_twice_witness :
  snd (GraphicRecord.crop (10, 40)
    {| GraphicRecord.features :=
         omap (fun f => GraphicFeature.crop f (10, 40))
              (GraphicRecord.features test_split_record);
       GraphicRecord.sequence_length := 40 - 10;
       GraphicRecord.feature_level_height :=
         GraphicRecord.feature_level_height test_split_record;
       GraphicRecord.sequence :=
         option_map (fun sq => slice sq 10 40) (GraphicRecord.sequence test_split_record);
       GraphicRecord.first_index := GraphicRecord.first_index test_split_record + 10;
       GraphicRecord.plots_indexing := "biopython";
       GraphicRecord.labels_spacing := 8 |})
  = Raise (ValueError "out-of-bound cropping").
Proof.
  apply (crop_record_twice test_split_record _ 10 40). reflexivity.
Defined.

Lemma substring_length (n m : nat) (sq : string) :
  (n + m <= String.length sq)%nat -> String.length (String.substring n m sq) = m.
Proof.
  revert n m. induction sq as [|c sq IH]; intros n m H; cbn in H.
  - assert (n = 0%nat) by lia. assert (m = 0%nat) by lia. subst. reflexivity.
  - destruct n as [|n].
    + destruct m as [|m]; [reflexivity|]. cbn. f_equal. apply (IH 0%nat). cbn. lia.
    + cbn. apply IH. lia.
Qed.

(** A record whose [sequence_length] is the length of its sequence keeps
    that agreement through [crop] exactly when the window has [s <= e]: an
    inverted window, or a negative [e], passes the bounds check and gives a
    record of negative length. *)
Theorem crop_record_sequence_length (r r' : GraphicRecord.t) (sq : string) (s e : Z) :
  GraphicRecord.sequence r = Some sq ->
  GraphicRecord.sequence_length r = Z.of_nat (String.length sq) ->
  snd (GraphicRecord.crop (s, e) r) = Ok r' ->
  exists sq', GraphicRecord.sequence r' = Some sq' /\
              (GraphicRecord.sequence_length r' = Z.of_nat (String.length sq')
               <-> s <= e).
Proof.
  intros Hsq Hlen H. apply crop_record_ok in H as (Hs & He & ->).
  cbn [GraphicRecord.sequence GraphicRecord.sequence_length].
  rewrite Hsq. cbn [option_map]. eexists. split; [reflexivity|].
  split; [lia|]. intros Hw. unfold slice, slice_index. rewrite <- Hlen.
  destruct (Z.ltb_spec s 0), (Z.ltb_spec e 0); try lia.
  rewrite substring_length by lia. lia.
Qed.

Lemma crop_record_sequence_length_witness :
  exists sq',
    GraphicRecord.sequence
      {| GraphicRecord.features := [];
         GraphicRecord.sequence_length := 6 - 2;
         GraphicRecord.feature_level_height := 1%Q;
         GraphicRecord.sequence := Some (slice "ATGCATGC" 2 6);
         GraphicRecord.first_index := 0 + 2;
         GraphicRecord.plots_indexing := "biopython";
         GraphicRecord.labels_spacing := 8 |} = Some sq' /\
    (GraphicRecord.sequence_length
       {| GraphicRecord.features := [];
          GraphicRecord.sequence_length := 6 - 2;
          GraphicRecord.feature_level_height := 1%Q;
          GraphicRecord.sequence := Some (slice "ATGCATGC" 2 6);
          GraphicRecord.first_index := 0 + 2;
          GraphicRecord.plots_indexing := "biopython";
          GraphicRecord.labels_spacing := 8 |}
     = Z.of_nat (String.length sq') <-> 2 <= 6).
Proof.
  apply (crop_record_sequence_length
           {| GraphicRecord.features := [];
              GraphicRecord.sequence_length := 8;
              GraphicRecord.feature_level_height := 1%Q;
              GraphicRecord.sequence := Some "ATGCATGC";
              GraphicRecord.first_index := 0;
              GraphicRecord.plots_indexing := "biopython";
              GraphicRecord.labels_spacing := 8 |} _ "ATGCATGC" 2 6);
    reflexivity.
Defined.

(** ** Splitting overflowing features, again *)

Lemma split_one_in_range (n : Z) (f : GraphicFeature.t) :
  in_range n f -> split_one n f = [f].
Proof.
  unfold in_range, split_one. intros H.
  destruct (Z.ltb_spec (GraphicFeature.start f) 0); [lia|]. cbn [andb].
  destruct (Z.ltb_spec (GraphicFeature.start f) n),
           (Z.ltb_spec n (GraphicFeature.end_ f)); cbn [andb]; try reflexivity; lia.
Qed.

Lemma split_one_into_range (n : Z) (f : GraphicFeature.t) :
  splits_into_range n f -> Forall (in_range n) (split_one n f).
Proof.
  unfold split_one, splits_into_range, in_range. intros H.
  destruct (Z.ltb_spec (GraphicFeature.start f) 0),
           (Z.ltb_spec 0 (GraphicFeature.end_ f)); cbn [andb];
    try (destruct (Z.ltb_spec (GraphicFeature.start f) n),
                  (Z.ltb_spec n (GraphicFeature.end_ f)); cbn [andb]);
    cbn; repeat (apply Forall_cons_2 || apply Forall_nil_2); cbn; lia.
Qed.

Lemma split_fixed (r : GraphicRecord.t) :
  Forall (in_range (GraphicRecord.sequence_length r)) (GraphicRecord.features r) ->
  fst (GraphicRecord.split_overflowing_features_circularly r) = r.
Proof.
  intros H.
  assert (Hfs : GraphicRecord.features
                  (fst (GraphicRecord.split_overflowing_features_circularly r))
                = GraphicRecord.features r).
  { rewrite split_features.
    induction H as [|f fs Hf Hfs IH]; cbn [map concat]; [reflexivity|].
    now rewrite (split_one_in_range _ f Hf), IH. }
  destruct r. unfold GraphicRecord.split_overflowing_features_circularly in *.
  cbn [fst GraphicRecord.set_features GraphicRecord.features
       GraphicRecord.sequence_length GraphicRecord.feature_level_height
       GraphicRecord.sequence GraphicRecord.first_index
       GraphicRecord.plots_indexing GraphicRecord.labels_spacing] in *.
  unfold GraphicRecord.set_features in *. cbn in Hfs |- *. now rewrite Hfs.
Qed.

(** The pass leaves alone a record whose features all lie in
    [[0, sequence_length)]; so on a record each of whose features lies there
    or crosses one edge by less than a sequence length, running it twice is
    running it once. *)
Theorem split_overflowing_idempotent (r : GraphicRecord.t) :
  (Forall (in_range (GraphicRecord.sequence_length r)) (GraphicRecord.features r) ->
   fst (GraphicRecord.split_overflowing_features_circularly r) = r) /\
  (Forall (splits_into_range (GraphicRecord.sequence_length r))
          (GraphicRecord.features r) ->
   fst (GraphicRecord.split_overflowing_features_circularly
          (fst (GraphicRecord.split_overflowing_features_circularly r)))
   = fst (GraphicRecord.split_overflowing_features_circularly r)).
Proof.
  split; [apply split_fixed|].
  intros H. apply split_fixed.
  change (GraphicRecord.sequence_length
            (fst (GraphicRecord.split_overflowing_features_circularly r)))
    with (GraphicRecord.sequence_length r).
  rewrite split_features.
  induction H as [|f fs Hf Hfs IH]; cbn [map concat]; [constructor|].
  apply Forall_app. split; [now apply split_one_into_range | exact IH].
Qed.

Lemma split_overflowing_idempotent_witness :
  fst (GraphicRecord.split_overflowing_features_circularly
         (fst (GraphicRecord.split_overflowing_features_circularly test_split_record)))
  = fst (GraphicRecord.split_overflowing_features_circularly test_split_record).
Proof.
  apply (split_overflowing_idempotent test_split_record).
  repeat (apply Forall_cons_2 || apply Forall_nil_2);
    unfold splits_into_range, in_range; simpl; lia.
Defined.

Lemma total_length_app (l1 l2 : list GraphicFeature.t) :
  total_length (l1 ++ l2) = total_length l1 + total_length l2.
Proof.
  unfold total_length. induction l1 as [|f l1 IH]; cbn [app foldr]; [lia|].
  rewrite IH. lia.
Qed.

Lemma split_one_accounting (n : Z) (f : GraphicFeature.t) :
  total_length (split_one n f) + Z.of_nat (length (split_one n f))
  = GraphicFeature.length f + 1.
Proof.
  unfold split_one, total_length, GraphicFeature.length.
  destruct (Z.ltb_spec (GraphicFeature.start f) 0),
           (Z.ltb_spec 0 (GraphicFeature.end_ f)); cbn [andb];
    try (destruct (Z.ltb_spec (GraphicFeature.start f) n),
                  (Z.ltb_spec n (GraphicFeature.end_ f)); cbn [andb]);
    cbn; lia.
Qed.

(** Every feature the pass cuts in two loses one position: the total length
    of the features goes down by exactly the number of features added. *)
Theorem split_overflowing_accounting (r : GraphicRecord.t) :
  total_length
    (GraphicRecord.features (fst (GraphicRecord.split_overflowing_features_circularly r)))
  + Z.of_nat (length
      (GraphicRecord.features (fst (GraphicRecord.split_overflowing_features_circularly r))))
  = total_length (GraphicRecord.features r)
    + Z.of_nat (length (GraphicRecord.features r)).
Proof.
  rewrite split_features.
  induction (GraphicRecord.features r) as [|f fs IH]; cbn [map concat]; [reflexivity|].
  rewrite total_length_app, length_app, Nat2Z.inj_add.
  pose proof (split_one_accounting (GraphicRecord.sequence_length r) f) as Hf.
  change (total_length (f :: fs)) with (GraphicFeature.length f + total_length fs).
  cbn [length]. lia.
Qed.

(** The pass never creates a feature with [start > end]: the fragments of a
    feature it cuts have [start <= end], so a record without such a feature
    has none afterwards. *)
Theorem split_overflowing_keeps_order (r : GraphicRecord.t) :
  Forall (fun f => GraphicFeature.start f <= GraphicFeature.end_ f)
         (GraphicRecord.features r) ->
  Forall (fun f => GraphicFeature.start f <= GraphicFeature.end_ f)
         (GraphicRecord.features (fst (GraphicRecord.split_overflowing_features_circularly r))).
Proof.
  rewrite split_features.
  induction 1 as [|f fs Hf Hfs IH]; cbn [map concat]; [constructor|].
  apply Forall_app. split; [|exact IH].
  unfold split_one.
  destruct (Z.ltb_spec (GraphicFeature.start f) 0),
           (Z.ltb_spec 0 (GraphicFeature.end_ f)); cbn [andb];
    try (destruct (Z.ltb_spec (GraphicFeature.start f) (GraphicRecord.sequence_length r)),
                  (Z.ltb_spec (GraphicRecord.sequence_length r) (GraphicFeature.end_ f));
         cbn [andb]);
    cbn; repeat (apply Forall_cons_2 || apply Forall_nil_2); cbn; lia.
Qed.

Lemma split_overflowing_keeps_order_witness :
  Forall (fun f => GraphicFeature.start f <= GraphicFeature.end_ f)
         (GraphicRecord.features
            (fst (GraphicRecord.split_overflowing_features_circularly test_split_record))).
Proof.
  apply (split_overflowing_keeps_order test_split_record).
  repeat (apply Forall_cons_2 || apply Forall_nil_2); simpl; lia.
Defined.

(** ** Lengths on the circle *)

Lemma decompose_ranges (f : GraphicFeature.t) (n : Z) :
  GraphicFeature.ranges f (Some n) = map with_int_bound (decompose f n).
Proof. apply ranges_with_length. Qed.

(** For a feature that spans the origin, [length] measures the arc it
    leaves free: [length] and [length_circular] add up to the sequence
    length; and when the feature lies on the sequence, [length_circular] is
    at least 0 and below the sequence length. For a feature with
    [start <> end], [length_circular] is the total width of the ranges that
    [overlaps_with] decomposes it into. *)
Theorem length_circular_facts (f : GraphicFeature.t) (n : Z) :
  (GraphicFeature.start f > GraphicFeature.end_ f ->
   GraphicFeature.length f + GraphicFeature.length_circular f n = n) /\
  (GraphicFeature.start f > GraphicFeature.end_ f ->
   0 <= GraphicFeature.end_ f -> GraphicFeature.start f <= n ->
   0 <= GraphicFeature.length_circular f n < n) /\
  (GraphicFeature.start f <> GraphicFeature.end_ f ->
   GraphicFeature.ranges f (Some n) = map with_int_bound (decompose f n) /\
   foldr (fun r acc => snd r - fst r + acc) 0 (decompose f n)
   = GraphicFeature.length_circular f n).
Proof.
  unfold GraphicFeature.length, GraphicFeature.length_circular, decompose.
  split; [|split].
  - intros H. destruct (Z.gtb_spec (GraphicFeature.start f) (GraphicFeature.end_ f)); lia.
  - intros H H0 Hn.
    destruct (Z.gtb_spec (GraphicFeature.start f) (GraphicFeature.end_ f)); lia.
  - intros H. split; [apply decompose_ranges|].
    destruct (Z.gtb_spec (GraphicFeature.start f) (GraphicFeature.end_ f)),
             (Z.ltb_spec (GraphicFeature.start f) (GraphicFeature.end_ f));
      cbn; lia.
Qed.

Lemma length_circular_facts_witness :
  GraphicFeature.length (GraphicFeature.init 14 6 None None)
  + GraphicFeature.length_circular (GraphicFeature.init 14 6 None None) 20 = 20.
Proof.
  apply (length_circular_facts (GraphicFeature.init 14 6 None None) 20).
  simpl. lia.
Defined.

(** ** The midpoints in floating point *)

Lemma iter_xO (p d : positive) : Zpos (Pos.iter xO p d) = Zpos p * 2 ^ Zpos d.
Proof.
  induction d as [|d IH] using Pos.peano_ind.
  - cbn. lia.
  - rewrite Pos.iter_succ, Pos2Z.inj_succ, Z.pow_succ_r by lia.
    rewrite Pos2Z.inj_xO, IH. ring.
Qed.

Lemma shl_spec (p : positive) (k : Z) : 0 <= k -> Zpos (shl p k) = Zpos p * 2 ^ k.
Proof.
  destruct k as [|d|d]; intros H; cbn [shl]; [lia | apply iter_xO | lia].
Qed.

Lemma digits_bounds (p : positive) :
  2 ^ (Zpos (digits2_pos p) - 1) <= Zpos p < 2 ^ Zpos (digits2_pos p).
Proof.
  induction p as [p IH|p IH|]; cbn [digits2_pos].
  - rewrite Pos2Z.inj_succ.
    replace (Z.succ (Zpos (digits2_pos p)) - 1) with (Z.succ (Zpos (digits2_pos p) - 1)) by lia.
    rewrite !Z.pow_succ_r by lia. lia.
  - rewrite Pos2Z.inj_succ.
    replace (Z.succ (Zpos (digits2_pos p)) - 1) with (Z.succ (Zpos (digits2_pos p) - 1)) by lia.
    rewrite !Z.pow_succ_r by lia. lia.
  - cbn. lia.
Qed.

Lemma digits_unique (p : positive) (d : Z) :
  2 ^ (d - 1) <= Zpos p < 2 ^ d -> Zpos (digits2_pos p) = d.
Proof.
  intros H. pose proof (digits_bounds p) as Hp.
  destruct (Z.lt_trichotomy (Zpos (digits2_pos p)) d) as [Hlt|[Heq|Hgt]]; [|exact Heq|].
  - exfalso.
    assert (2 ^ Zpos (digits2_pos p) <= 2 ^ (d - 1)) by (apply Z.pow_le_mono_r; lia).
    lia.
  - exfalso.
    assert (0 <= d).
    { destruct (Z_lt_le_dec d 0) as [Hn|]; [|assumption].
      rewrite (Z.pow_neg_r 2 d) in H by assumption. lia. }
    assert (2 ^ d <= 2 ^ (Zpos (digits2_pos p) - 1)) by (apply Z.pow_le_mono_r; lia).
    lia.
Qed.

Lemma digits_shl (p : positive) (k : Z) :
  0 <= k -> Zpos (digits2_pos (shl p k)) = Zpos (digits2_pos p) + k.
Proof.
  intros Hk. apply digits_unique. rewrite shl_spec by assumption.
  pose proof (digits_bounds p) as Hp.
  replace (Zpos (digits2_pos p) + k - 1) with ((Zpos (digits2_pos p) - 1) + k) by lia.
  rewrite !Z.pow_add_r by lia.
  assert (0 < 2 ^ k) by (apply Z.pow_pos_nonneg; lia).
  nia.
Qed.

Lemma iter_pos_succ {A} (f : A -> A) (p : positive) (x : A) :
  SpecFloat.iter_pos f (Pos.succ p) x = f (SpecFloat.iter_pos f p x).
Proof.
  assert (Hc : forall p x, SpecFloat.iter_pos f p (f x) = f (SpecFloat.iter_pos f p x)).
  { clear. induction p as [p IH|p IH|]; intros x; cbn [SpecFloat.iter_pos].
    - now rewrite !IH.
    - now rewrite !IH.
    - reflexivity. }
  revert x. induction p as [p IH|p IH|]; intros x.
  - change (Pos.succ p~1) with (xO (Pos.succ p)). cbn [SpecFloat.iter_pos].
    rewrite !IH. now rewrite !Hc.
  - change (Pos.succ p~0) with (xI p). cbn [SpecFloat.iter_pos]. now rewrite !Hc.
  - reflexivity.
Qed.

Lemma shr_shl (q d : positive) :
  SpecFloat.iter_pos shr_1 d (Build_shr_record (Zpos (Pos.iter xO q d)) false false)
  = Build_shr_record (Zpos q) false false.
Proof.
  revert q. induction d as [|d IH] using Pos.peano_ind; intros q.
  - reflexivity.
  - rewrite iter_pos_succ, Pos.iter_succ_r. rewrite IH. reflexivity.
Qed.

Lemma fexp_normal (x : Z) : -1021 <= x -> fexp Binary64.prec Binary64.emax x = x - 53.
Proof. unfold fexp, emin. lia. Qed.

(** Rounding a mantissa that is a canonical one shifted left gives the
    canonical one back. *)
Lemma binary_round_aux_exact (s : bool) (q : positive) (e k : Z) :
  0 <= k ->
  Zpos (digits2_pos q) = 53 ->
  -1074 <= e + k <= 971 ->
  binary_round_aux Binary64.prec Binary64.emax s (Zpos (shl q k)) e loc_Exact
  = S754_finite s q (e + k).
Proof.
  intros Hk Hd He. unfold binary_round_aux, shr_fexp.
  cbn [Zdigits2 shr_record_of_loc]. rewrite digits_shl by assumption.
  rewrite fexp_normal by lia.
  replace (Zpos (digits2_pos q) + k + e - 53 - e) with k by lia.
  assert (Hs : shr {| shr_m := Zpos (shl q k); shr_r := false; shr_s := false |} e k
               = ({| shr_m := Zpos q; shr_r := false; shr_s := false |}, e + k)).
  { destruct k as [|d|d]; cbn [shr shl]; [f_equal; lia | | lia].
    now rewrite shr_shl. }
  rewrite Hs. cbn [shr_m loc_of_shr_record round_nearest_even Zdigits2 shr_record_of_loc].
  rewrite fexp_normal by lia.
  replace (Zpos (digits2_pos q) + (e + k) - 53 - (e + k)) with 0 by lia.
  cbn [shr shr_m].
  destruct (Z.leb_spec (e + k) (Binary64.emax - Binary64.prec)); [reflexivity | lia].
Qed.

(** Rounding a number that has a canonical representation gives it. *)
Lemma binary_round_exact (s : bool) (p q : positive) (e t : Z) :
  Zpos (digits2_pos q) = 53 -> -1074 <= t <= 971 ->
  Zpos p * 2 ^ (e - Z.min e t) = Zpos q * 2 ^ (t - Z.min e t) ->
  binary_round Binary64.prec Binary64.emax s p e = S754_finite s q t.
Proof.
  intros Hd Ht Heq. unfold binary_round.
  assert (Hdig : Zpos (digits2_pos p) + e = 53 + t).
  { destruct (Z_le_gt_dec t e) as [Hte|Hte].
    - rewrite Z.min_r, Z.sub_diag, Z.pow_0_r, Z.mul_1_r in Heq by lia.
      rewrite <- shl_spec in Heq by lia. injection Heq as <-.
      rewrite digits_shl in Hd by lia. lia.
    - rewrite Z.min_l, Z.sub_diag, Z.pow_0_r, Z.mul_1_r in Heq by lia.
      rewrite <- shl_spec in Heq by lia. injection Heq as ->.
      rewrite digits_shl by lia. lia. }
  rewrite Hdig, fexp_normal by lia.
  replace (53 + t - 53) with t by lia.
  unfold shl_align.
  destruct (Z_le_gt_dec t e) as [Hte|Hte].
  - rewrite Z.min_r, Z.sub_diag, Z.pow_0_r, Z.mul_1_r in Heq by lia.
    rewrite <- shl_spec in Heq by lia. injection Heq as <-.
    destruct (t - e) as [|d|d] eqn:E; try lia.
    + assert (e = t) by lia. subst e. rewrite Z.sub_diag. cbn [shl].
      rewrite <- (Z.add_0_r t) at 2.
      change (Zpos p) with (Zpos (shl p 0)).
      apply binary_round_aux_exact; try lia;
        try (rewrite Z.sub_diag in Hd; exact Hd).
    + replace (e - t) with (Zpos d) by lia. cbn [shl].
      rewrite <- (Z.add_0_r t) at 2.
      change (Zpos (Pos.iter xO p d)) with (Zpos (shl (Pos.iter xO p d) 0)).
      apply binary_round_aux_exact; try lia;
        try (replace (e - t) with (Zpos d) in Hd by lia; exact Hd).
  - rewrite Z.min_l, Z.sub_diag, Z.pow_0_r, Z.mul_1_r in Heq by lia.
    rewrite <- shl_spec in Heq by lia. injection Heq as ->.
    destruct (t - e) as [|d|d] eqn:E; try lia.
    replace t with (e + Zpos d) by lia.
    apply binary_round_aux_exact; lia.
Qed.

Lemma digits_le (p : positive) (n : Z) :
  0 <= n -> Zpos p < 2 ^ n -> 1 <= Zpos (digits2_pos p) <= n.
Proof.
  intros Hn H. pose proof (digits_bounds p) as Hp. split; [lia|].
  destruct (Z_le_gt_dec (Zpos (digits2_pos p)) n) as [|Hgt]; [assumption|exfalso].
  assert (2 ^ n <= 2 ^ (Zpos (digits2_pos p) - 1)) by (apply Z.pow_le_mono_r; lia).
  lia.
Qed.

Lemma binary_round_halves (s : bool) (P p : positive) (e : Z) :
  Zpos p < 2 ^ 53 -> -1074 <= e ->
  Zpos P * 2 ^ (e - Z.min e (-1)) = Zpos p * 2 ^ (-1 - Z.min e (-1)) ->
  binary_round Binary64.prec Binary64.emax s P e
  = S754_finite s (shl p (53 - Zpos (digits2_pos p))) (Zpos (digits2_pos p) - 54).
Proof.
  intros Hp He H. pose proof (digits_le p 53 ltac:(lia) Hp) as Hd.
  set (d := Zpos (digits2_pos p)) in *.
  apply binary_round_exact.
  - rewrite digits_shl by lia. fold d. lia.
  - lia.
  - rewrite shl_spec by lia.
    destruct (Z_le_gt_dec 0 e) as [He0|He0].
    + rewrite Z.min_r in H by lia. rewrite Z.min_r by lia.
      replace (-1 - -1) with 0 in H by lia. rewrite Z.pow_0_r, Z.mul_1_r in H.
      replace (e - -1) with (e + 1) in H by lia.
      replace (e - (d - 54)) with ((e + 1) + (53 - d)) by lia.
      rewrite Z.sub_diag, Z.pow_0_r, Z.mul_1_r, Z.pow_add_r, Z.mul_assoc, H by lia.
      reflexivity.
    + rewrite Z.min_l in H by lia.
      rewrite Z.sub_diag, Z.pow_0_r, Z.mul_1_r in H.
      destruct (Z_le_gt_dec (d - 54) e) as [Hte|Hte].
      * rewrite Z.min_r by lia.
        rewrite Z.sub_diag, Z.pow_0_r, Z.mul_1_r, H, <- Z.mul_assoc, <- Z.pow_add_r by lia.
        f_equal. f_equal. lia.
      * rewrite Z.min_l by lia.
        rewrite Z.sub_diag, Z.pow_0_r, Z.mul_1_r, H, <- Z.mul_assoc, <- Z.pow_add_r by lia.
        f_equal. f_equal. lia.
Qed.

(** Rounding [S * 2 ^ e] gives the number for [h / 2] when the two are
    equal and [h] is below [2 ^ 53] in magnitude. *)
Lemma binary_normalize_halves (S h e : Z) :
  Z.abs h < 2 ^ 53 -> -1074 <= e ->
  S * 2 ^ (e - Z.min e (-1)) = h * 2 ^ (-1 - Z.min e (-1)) ->
  binary_normalize Binary64.prec Binary64.emax S e false = of_halves h.
Proof.
  intros Hh He H.
  assert (Ha : 0 < 2 ^ (e - Z.min e (-1))) by (apply Z.pow_pos_nonneg; lia).
  assert (Hb : 0 < 2 ^ (-1 - Z.min e (-1))) by (apply Z.pow_pos_nonneg; lia).
  destruct h as [|p|p]; cbn [of_halves].
  - assert (S = 0) by nia. subst S. reflexivity.
  - destruct S as [|P|P]; try nia. cbn [binary_normalize].
    apply binary_round_halves; [lia | lia | exact H].
  - destruct S as [|P|P]; try nia. cbn [binary_normalize].
    apply binary_round_halves; [lia | lia | lia].
Qed.

Lemma of_int_exact (m : Z) :
  Z.abs m < 2 ^ 52 -> Binary64.of_int m = Some (of_halves (2 * m)).
Proof.
  intros H. unfold Binary64.of_int.
  rewrite (binary_normalize_halves m (2 * m) 0);
    [ | lia | lia | change (m * 2 = 2 * m * 1); lia ].
  destruct m; reflexivity.
Qed.

Lemma of_halves_finite (h : Z) :
  h <> 0 -> Z.abs h < 2 ^ 53 ->
  exists s m e,
    of_halves h = S754_finite s m e /\ -53 <= e <= -1 /\
    Zpos (digits2_pos m) = 53 /\
    forall ez, ez <= e ->
      cond_Zopp s (Zpos m) * 2 ^ (e - ez) = h * 2 ^ (-1 - ez).
Proof.
  intros H0 Hh.
  assert (Hgen : forall p, Zpos p < 2 ^ 53 ->
    -53 <= Zpos (digits2_pos p) - 54 <= -1 /\
    Zpos (digits2_pos (shl p (53 - Zpos (digits2_pos p)))) = 53 /\
    forall ez, ez <= Zpos (digits2_pos p) - 54 ->
      Zpos (shl p (53 - Zpos (digits2_pos p))) * 2 ^ (Zpos (digits2_pos p) - 54 - ez)
      = Zpos p * 2 ^ (-1 - ez)).
  { intros p Hp. pose proof (digits_le p 53 ltac:(lia) Hp) as Hd.
    set (d := Zpos (digits2_pos p)) in *.
    split; [lia|]. split; [rewrite digits_shl by lia; fold d; lia|].
    intros ez Hez. rewrite shl_spec, <- Z.mul_assoc, <- Z.pow_add_r by lia.
    f_equal. f_equal. lia. }
  destruct h as [|p|p]; [congruence| |]; cbn [of_halves].
  - destruct (Hgen p ltac:(lia)) as (He & Hd & Hv).
    exists false, (shl p (53 - Zpos (digits2_pos p))), (Zpos (digits2_pos p) - 54).
    split; [reflexivity|]. split; [exact He|]. split; [exact Hd|]. exact Hv.
  - destruct (Hgen p ltac:(lia)) as (He & Hd & Hv).
    exists true, (shl p (53 - Zpos (digits2_pos p))), (Zpos (digits2_pos p) - 54).
    split; [reflexivity|]. split; [exact He|]. split; [exact Hd|].
    intros ez Hez. cbn [cond_Zopp]. specialize (Hv ez Hez). lia.
Qed.

Lemma mul_pow2_52 (m : positive) :
  Zpos (m * 4503599627370496) = Zpos (shl m 52)
  /\ Zpos (4503599627370496 * m) = Zpos (shl m 52).
Proof.
  rewrite shl_spec by lia. change (2 ^ 52) with 4503599627370496. lia.
Qed.

Lemma mul_half_pos (s : bool) (p : positive) :
  Zpos p < 2 ^ 52 ->
  binary_round_aux Binary64.prec Binary64.emax s
    (Zpos (shl p~0 (53 - Zpos (digits2_pos p~0)) * 4503599627370496))
    (Zpos (digits2_pos p~0) - 54 + -53) loc_Exact
  = S754_finite s (shl p (53 - Zpos (digits2_pos p))) (Zpos (digits2_pos p) - 54) /\
  binary_round_aux Binary64.prec Binary64.emax s
    (Zpos (4503599627370496 * shl p~0 (53 - Zpos (digits2_pos p~0))))
    (-53 + (Zpos (digits2_pos p~0) - 54)) loc_Exact
  = S754_finite s (shl p (53 - Zpos (digits2_pos p))) (Zpos (digits2_pos p) - 54).
Proof.
  intros Hp. pose proof (digits_le p 52 ltac:(lia) Hp) as Hd.
  cbn [digits2_pos].
  destruct (mul_pow2_52 (shl p~0 (53 - Z.pos (Pos.succ (digits2_pos p))))) as [E1 E2].
  rewrite E1, E2.
  assert (Em : shl p~0 (53 - Z.pos (Pos.succ (digits2_pos p)))
               = shl p (53 - Zpos (digits2_pos p))).
  { apply Pos2Z.inj. rewrite !shl_spec by lia. rewrite Pos2Z.inj_succ.
    replace (53 - Zpos (digits2_pos p))
      with (Z.succ (53 - Z.succ (Zpos (digits2_pos p)))) by lia.
    rewrite Z.pow_succ_r by lia. lia. }
  rewrite Em.
  replace (Zpos (digits2_pos p) - 54)
    with ((Z.pos (Pos.succ (digits2_pos p)) - 54 + -53) + 52) by lia.
  replace (-53 + (Z.pos (Pos.succ (digits2_pos p)) - 54))
    with (Z.pos (Pos.succ (digits2_pos p)) - 54 + -53) by lia.
  split; apply binary_round_aux_exact; try lia;
    rewrite digits_shl by lia; lia.
Qed.

Lemma mul_half (h : Z) :
  Z.abs h < 2 ^ 52 ->
  SFmul Binary64.prec Binary64.emax (of_halves (2 * h)) Binary64.half = of_halves h /\
  SFmul Binary64.prec Binary64.emax Binary64.half (of_halves (2 * h)) = of_halves h.
Proof.
  intros Hh. destruct h as [|p|p]; [split; reflexivity| |].
  - change (2 * Zpos p) with (Zpos p~0). cbn [of_halves Binary64.half SFmul xorb].
    apply mul_half_pos. lia.
  - change (2 * Zneg p) with (Zneg p~0). cbn [of_halves Binary64.half SFmul xorb].
    apply mul_half_pos. lia.
Qed.

Lemma shl_align_fst (m : positive) (e ez : Z) :
  ez <= e -> Zpos (fst (shl_align m e ez)) = Zpos m * 2 ^ (e - ez).
Proof.
  intros H. unfold shl_align.
  destruct (ez - e) as [|d|d] eqn:E; cbn [fst]; try lia.
  - replace (e - ez) with 0 by lia. lia.
  - rewrite iter_xO. f_equal. f_equal. lia.
Qed.

Lemma cond_Zopp_mul (s : bool) (a b : Z) : cond_Zopp s (a * b) = cond_Zopp s a * b.
Proof. destruct s; cbn [cond_Zopp]; lia. Qed.

Lemma add_halves (h1 h2 : Z) :
  Z.abs h1 < 2 ^ 53 -> Z.abs h2 < 2 ^ 53 -> Z.abs (h1 + h2) < 2 ^ 53 ->
  SFadd Binary64.prec Binary64.emax (of_halves h1) (of_halves h2) = of_halves (h1 + h2).
Proof.
  intros H1 H2 H.
  destruct (Z.eq_dec h1 0) as [->|N1].
  { destruct h2; reflexivity. }
  destruct (Z.eq_dec h2 0) as [->|N2].
  { rewrite Z.add_0_r. destruct h1; reflexivity. }
  destruct (of_halves_finite h1 N1 H1) as (s1 & m1 & e1 & -> & He1 & _ & V1).
  destruct (of_halves_finite h2 N2 H2) as (s2 & m2 & e2 & -> & He2 & _ & V2).
  cbn [SFadd].
  apply binary_normalize_halves; [assumption | lia |].
  rewrite !shl_align_fst, !cond_Zopp_mul by lia.
  rewrite V1, V2 by lia.
  rewrite (Z.min_l (Z.min e1 e2) (-1)) by lia.
  rewrite Z.sub_diag, Z.pow_0_r. ring.
Qed.

Lemma sub_halves (h1 h2 : Z) :
  Z.abs h1 < 2 ^ 53 -> Z.abs h2 < 2 ^ 53 -> Z.abs (h1 - h2) < 2 ^ 53 ->
  SFsub Binary64.prec Binary64.emax (of_halves h1) (of_halves h2) = of_halves (h1 - h2).
Proof.
  intros H1 H2 H.
  destruct (Z.eq_dec h2 0) as [->|N2].
  { rewrite Z.sub_0_r. destruct h1; reflexivity. }
  destruct (Z.eq_dec h1 0) as [->|N1].
  { destruct h2; reflexivity. }
  destruct (of_halves_finite h1 N1 H1) as (s1 & m1 & e1 & -> & He1 & _ & V1).
  destruct (of_halves_finite h2 N2 H2) as (s2 & m2 & e2 & -> & He2 & _ & V2).
  cbn [SFsub].
  apply binary_normalize_halves; [assumption | lia |].
  rewrite !shl_align_fst, !cond_Zopp_mul by lia.
  rewrite V1, V2 by lia.
  rewrite (Z.min_l (Z.min e1 e2) (-1)) by lia.
  rewrite Z.sub_diag, Z.pow_0_r. ring.
Qed.

Lemma value_halves (h : Z) :
  Z.abs h < 2 ^ 53 ->
  Binary64.is_finite (of_halves h) = true /\ (Binary64.value (of_halves h) == inject_Z h * (1 # 2))%Q.
Proof.
  intros H. destruct (Z.eq_dec h 0) as [->|N].
  { split; reflexivity. }
  destruct (of_halves_finite h N H) as (s & m & e & -> & He & _ & V).
  split; [reflexivity|]. cbn [Binary64.value].
  specialize (V (-54) ltac:(lia)).
  change (-1 - -54) with 53 in V.
  replace (e - -54) with (e + 54) in V by lia.
  assert (E : (inject_Z (cond_Zopp s (Zpos m)) * 2 ^ (e + 54)
               == inject_Z h * 2 ^ 53)%Q).
  { change 2%Q with (inject_Z 2).
    rewrite <- (Zpower_Qpower 2 (e + 54)), <- (Zpower_Qpower 2 53) by lia.
    rewrite <- !inject_Z_mult. now rewrite V. }
  rewrite Qpower_plus in E by discriminate.
  apply (Qmult_inj_r _ _ (2 ^ 54)%Q); [discriminate|].
  rewrite <- Qmult_assoc, (Qmult_assoc (inject_Z (cond_Zopp s (Zpos m)))) in *.
  rewrite E. rewrite <- Qmult_assoc. apply Qmult_comp; reflexivity.
Qed.

Lemma le_int_halves (h n : Z) :
  Z.abs h < 2 ^ 53 ->
  Binary64.le_int (of_halves h) n = Qle_bool (inject_Z h * (1 # 2)) (inject_Z n).
Proof.
  intros H. destruct (value_halves h H) as [Hf Hv].
  unfold Binary64.le_int. rewrite <- Hv.
  destruct (of_halves h); try discriminate; reflexivity.
Qed.

(** Under the bound, the floats the two accessors compute are the numbers
    for the exact midpoints. *)
Lemma binary64_midpoints (f : GraphicFeature.t) (n : Z) :
  Z.abs (GraphicFeature.start f) <= 2 ^ 50 ->
  Z.abs (GraphicFeature.end_ f) <= 2 ^ 50 ->
  Z.abs n <= 2 ^ 50 ->
  Binary64.x_center f
  = Some (of_halves (GraphicFeature.start f + GraphicFeature.end_ f - 1)) /\
  Binary64.x_center_circular f n
  = Some (of_halves
            (if Qle_bool
                  (inject_Z (GraphicFeature.length_circular f n
                             + 2 * GraphicFeature.start f) * (1 # 2))
                  (inject_Z n)
             then GraphicFeature.length_circular f n + 2 * GraphicFeature.start f
             else GraphicFeature.length_circular f n + 2 * GraphicFeature.start f
                  - 2 * n)).
Proof.
  intros Hs He Hn.
  change (2 ^ 50) with 1125899906842624 in Hs, He, Hn.
  assert (P52 : 2 ^ 52 = 4503599627370496) by reflexivity.
  assert (P53 : 2 ^ 53 = 9007199254740992) by reflexivity.
  split.
  - unfold Binary64.x_center. rewrite of_int_exact by lia.
    cbn [mbind option_bind]. f_equal. apply mul_half. lia.
  - assert (Hl : Z.abs (GraphicFeature.length_circular f n) <= 3 * 1125899906842624).
    { unfold GraphicFeature.length_circular.
      destruct (GraphicFeature.start f >? GraphicFeature.end_ f); lia. }
    unfold Binary64.x_center_circular.
    set (fl := GraphicFeature.length_circular f n) in *.
    cbv zeta. rewrite !of_int_exact by lia. cbn [mbind option_bind].
    rewrite (proj1 (mul_half fl ltac:(lia))).
    rewrite add_halves by lia.
    rewrite le_int_halves by lia.
    destruct (Qle_bool (inject_Z (fl + 2 * GraphicFeature.start f) * (1 # 2))
                (inject_Z n)); [reflexivity|].
    now rewrite sub_halves by lia.
Qed.

(** On coordinates and a sequence length of at most [2 ^ 50] in magnitude,
    the floats that [x_center] and [x_center_circular] compute are finite
    and stand for the midpoints of exact arithmetic. Hence, on a feature
    with [start <= end] that does not wrap, the circular centre is half a
    position beyond the centre; and on a feature that spans the origin with
    [0 <= end < start < sequence_length] it lies in [(0, sequence_length]],
    the upper bound being reached when [start + end = sequence_length]. *)
Theorem x_center_binary64 (f : GraphicFeature.t) (n : Z) :
  Z.abs (GraphicFeature.start f) <= 2 ^ 50 ->
  Z.abs (GraphicFeature.end_ f) <= 2 ^ 50 ->
  Z.abs n <= 2 ^ 50 ->
  exists c cc : spec_float,
    Binary64.x_center f = Some c /\
    Binary64.x_center_circular f n = Some cc /\
    Binary64.is_finite c = true /\ Binary64.is_finite cc = true /\
    (Binary64.value c == GraphicFeature.x_center f)%Q /\
    (Binary64.value cc == GraphicFeature.x_center_circular f n)%Q /\
    (GraphicFeature.start f <= GraphicFeature.end_ f ->
     GraphicFeature.start f + GraphicFeature.end_ f <= 2 * n ->
     (Binary64.value cc == Binary64.value c + (1 # 2))%Q) /\
    (0 <= GraphicFeature.end_ f < GraphicFeature.start f ->
     GraphicFeature.start f < n ->
     (0 < Binary64.value cc)%Q /\ (Binary64.value cc <= inject_Z n)%Q /\
     ((Binary64.value cc == inject_Z n)%Q <->
      GraphicFeature.start f + GraphicFeature.end_ f = n)).
Proof.
  intros Hs He Hn.
  destruct (binary64_midpoints f n Hs He Hn) as [Hc Hcc].
  change (2 ^ 50) with 1125899906842624 in Hs, He, Hn.
  assert (P53 : 2 ^ 53 = 9007199254740992) by reflexivity.
  assert (Hl : Z.abs (GraphicFeature.length_circular f n) <= 3 * 1125899906842624).
  { unfold GraphicFeature.length_circular.
    destruct (GraphicFeature.start f >? GraphicFeature.end_ f); lia. }
  eexists _, _. split; [exact Hc|]. split; [exact Hcc|].
  destruct (value_halves (GraphicFeature.start f + GraphicFeature.end_ f - 1))
    as [Fc Vc]; [lia|].
  assert (Vcc : Binary64.is_finite
      (of_halves
         (if Qle_bool
               (inject_Z (GraphicFeature.length_circular f n
                          + 2 * GraphicFeature.start f) * (1 # 2))
               (inject_Z n)
          then GraphicFeature.length_circular f n + 2 * GraphicFeature.start f
          else GraphicFeature.length_circular f n + 2 * GraphicFeature.start f
               - 2 * n)) = true /\
    (Binary64.value
      (of_halves
         (if Qle_bool
               (inject_Z (GraphicFeature.length_circular f n
                          + 2 * GraphicFeature.start f) * (1 # 2))
               (inject_Z n)
          then GraphicFeature.length_circular f n + 2 * GraphicFeature.start f
          else GraphicFeature.length_circular f n + 2 * GraphicFeature.start f
               - 2 * n))
     == GraphicFeature.x_center_circular f n)%Q).
  { unfold GraphicFeature.x_center_circular.
    set (fl := GraphicFeature.length_circular f n) in *.
    assert (Em : (inject_Z (fl + 2 * GraphicFeature.start f) * (1 # 2)
                  == inject_Z fl * 0.5 + inject_Z (GraphicFeature.start f))%Q).
    { unfold Qeq, Qplus, Qmult, inject_Z; cbn [Qnum Qden]. lia. }
    cbv zeta. rewrite <- Em.
    destruct (Qle_bool (inject_Z (fl + 2 * GraphicFeature.start f) * (1 # 2))
                (inject_Z n)).
    - destruct (value_halves (fl + 2 * GraphicFeature.start f)) as [F V]; [lia|].
      split; [exact F|]. rewrite V. exact Em.
    - destruct (value_halves (fl + 2 * GraphicFeature.start f - 2 * n))
        as [F V]; [lia|].
      split; [exact F|]. rewrite V, <- Em.
      unfold Qeq, Qminus, Qopp, Qplus, Qmult, inject_Z; cbn [Qnum Qden]. lia. }
  destruct Vcc as [Fcc Vcc].
  assert (Vc' : (Binary64.value
                   (of_halves (GraphicFeature.start f + GraphicFeature.end_ f - 1))
                 == GraphicFeature.x_center f)%Q).
  { rewrite Vc. unfold GraphicFeature.x_center.
    unfold Qeq, Qmult, inject_Z; cbn [Qnum Qden]. lia. }
  split; [exact Fc|]. split; [exact Fcc|]. split; [exact Vc'|]. split; [exact Vcc|].
  destruct (circular_center_facts f n) as (_ & Hlin & Hwrap).
  split.
  - intros H1 H2. rewrite Vcc, Vc'. now apply Hlin.
  - intros H1 H2. rewrite Vcc. now apply Hwrap.
Qed.

Lemma x_center_binary64_witness :
  exists c cc : spec_float,
    Binary64.x_center (GraphicFeature.init 14 6 None None) = Some c /\
    Binary64.x_center_circular (GraphicFeature.init 14 6 None None) 20 = Some cc /\
    Binary64.is_finite c = true /\ Binary64.is_finite cc = true /\
    (Binary64.value c == GraphicFeature.x_center (GraphicFeature.init 14 6 None None))%Q /\
    (Binary64.value cc
     == GraphicFeature.x_center_circular (GraphicFeature.init 14 6 None None) 20)%Q /\
    (GraphicFeature.start (GraphicFeature.init 14 6 None None)
     <= GraphicFeature.end_ (GraphicFeature.init 14 6 None None) ->
     GraphicFeature.start (GraphicFeature.init 14 6 None None)
     + GraphicFeature.end_ (GraphicFeature.init 14 6 None None) <= 2 * 20 ->
     (Binary64.value cc == Binary64.value c + (1 # 2))%Q) /\
    (0 <= GraphicFeature.end_ (GraphicFeature.init 14 6 None None)
       < GraphicFeature.start (GraphicFeature.init 14 6 None None) ->
     GraphicFeature.start (GraphicFeature.init 14 6 None None) < 20 ->
     (0 < Binary64.value cc)%Q /\ (Binary64.value cc <= inject_Z 20)%Q /\
     ((Binary64.value cc == inject_Z 20)%Q <->
      GraphicFeature.start (GraphicFeature.init 14 6 None None)
      + GraphicFeature.end_ (GraphicFeature.init 14 6 None None) = 20)).
Proof.
  apply (x_center_binary64 (GraphicFeature.init 14 6 None None) 20);
    change (2 ^ 50) with 1125899906842624; simpl; lia.
Defined.

(** Beyond [2 ^ 53] the floats round: on the feature from 0 to
    [2 ^ 53 + 2] the centre is [2 ^ 52] and the circular centre
    [2 ^ 52 + 1], a whole position apart. *)
Lemma x_center_binary64_rounding :
  let f := GraphicFeature.init 0 (2 ^ 53 + 2) None None in
  option_map Binary64.value (Binary64.x_center f) = Some (inject_Z (2 ^ 52)) /\
  option_map Binary64.value (Binary64.x_center_circular f (2 ^ 60))
  = Some (inject_Z (2 ^ 52 + 1)).
Proof. vm_compute. split; reflexivity. Qed.

(** ** The font dictionary of a feature *)

Lemma dict_get_set {V} (k k' : string) (v : V) (d : list (string * V)) :
  dict_get k (dict_set k' v d) = if String.eqb k k' then Some v else dict_get k d.
Proof.
  induction d as [|[k1 v1] d IH]; cbn [dict_set dict_get]; [reflexivity|].
  destruct (String.eqb_spec k' k1) as [->|Hne]; cbn [dict_get].
  - destruct (String.eqb_spec k k1); reflexivity.
  - rewrite IH. destruct (String.eqb_spec k k1) as [->|]; [|reflexivity].
    destruct (String.eqb_spec k1 k'); [congruence | reflexivity].
Qed.

Lemma dict_get_fresh {V} (k : string) (d : list (string * V)) :
  k ∉ fst <$> d -> dict_get k d = None.
Proof.
  induction d as [|[k1 v1] d IH]; cbn [dict_get fmap list_fmap fst]; [reflexivity|].
  intros H. apply not_elem_of_cons in H as [Hne H].
  destruct (String.eqb_spec k k1); [congruence | now apply IH].
Qed.

Lemma dict_set_keys {V} (k x : string) (v : V) (d : list (string * V)) :
  x ∈ fst <$> dict_set k v d -> x = k \/ x ∈ fst <$> d.
Proof.
  induction d as [|[k1 v1] d IH]; cbn [dict_set fmap list_fmap fst].
  - intros H. apply list_elem_of_singleton in H. now left.
  - destruct (String.eqb_spec k k1) as [->|Hne]; cbn [fmap list_fmap fst]; intros H.
    + now right.
    + apply elem_of_cons in H as [->|H].
      * right. apply elem_of_cons. now left.
      * destruct (IH H) as [->|H']; [now left|]. right. apply elem_of_cons. now right.
Qed.

Lemma dict_set_NoDup {V} (k : string) (v : V) (d : list (string * V)) :
  NoDup (fst <$> d) -> NoDup (fst <$> dict_set k v d).
Proof.
  induction d as [|[k1 v1] d IH]; cbn [dict_set fmap list_fmap fst]; intros H.
  - apply NoDup_singleton.
  - apply NoDup_cons in H as [Hk1 H].
    destruct (String.eqb_spec k k1) as [->|Hne]; cbn [fmap list_fmap fst].
    + apply NoDup_cons. split; assumption.
    + apply NoDup_cons. split; [|now apply IH].
      intros Hin. apply dict_set_keys in Hin as [->|Hin]; [congruence | contradiction].
Qed.

Lemma dict_items_get {V} (k : string) (items acc : list (string * V)) :
  NoDup (fst <$> items) ->
  dict_get k (foldl (fun d kv => dict_set (fst kv) (snd kv) d) acc items)
  = match dict_get k items with
    | Some v => Some v
    | None => dict_get k acc
    end.
Proof.
  revert acc. induction items as [|[k1 v1] items IH]; intros acc H;
    cbn [foldl dict_get fst snd]; [reflexivity|].
  cbn [fmap list_fmap fst] in H. apply NoDup_cons in H as [Hk1 H].
  rewrite (IH _ H), dict_get_set.
  destruct (String.eqb_spec k k1) as [->|Hne]; [|reflexivity].
  now rewrite (dict_get_fresh k1 items Hk1).
Qed.

Lemma dict_items_shape {V} (items : list (string * V)) :
  forall (k0 : string) (v0 : V) (d : list (string * V)),
    NoDup (fst <$> (k0, v0) :: d) ->
    exists v' d',
      foldl (fun d kv => dict_set (fst kv) (snd kv) d) ((k0, v0) :: d) items
      = (k0, v') :: d' /\ NoDup (fst <$> (k0, v') :: d').
Proof.
  induction items as [|[k1 v1] items IH]; intros k0 v0 d H; cbn [foldl fst snd].
  - eauto.
  - pose proof (dict_set_NoDup k1 v1 _ H) as H'.
    cbn [dict_set] in H' |- *.
    destruct (String.eqb_spec k1 k0) as [->|Hne]; now apply IH.
Qed.

(** The font dictionary of a feature always has a [fontsize], first among
    its keys, and no key twice: the caller's [fontsize] when the [fontdict]
    argument has one, 11 otherwise; every other key is looked up as in the
    argument. *)
Theorem init_fontdict_spec (fontdict : option (list (string * pyval))) (k : string) :
  NoDup (fst <$> default [] fontdict) ->
  dict_get k (init_fontdict fontdict)
  = match dict_get k (default [] fontdict) with
    | Some v => Some v
    | None => if String.eqb k "fontsize" then Some (PInt 11) else None
    end /\
  (exists v rest, init_fontdict fontdict = ("fontsize", v) :: rest) /\
  NoDup (fst <$> init_fontdict fontdict).
Proof.
  intros H. unfold init_fontdict, dict_of_items.
  replace (match fontdict with Some d => d | None => [] end)
    with (default [] fontdict) by now destruct fontdict.
  cbn [app foldl fst snd dict_set]. split.
  - rewrite (dict_items_get k _ _ H). cbn [dict_get]. reflexivity.
  - destruct (dict_items_shape (default [] fontdict) "fontsize" (PInt 11) [])
      as (v' & d' & Heq & Hnd); [apply NoDup_singleton|].
    rewrite Heq. split; [eauto | exact Hnd].
Qed.

Lemma init_fontdict_spec_witness :
  dict_get "fontsize"
    (init_fontdict (Some [("weight", PStr "bold"); ("fontsize", PInt 8)]))
  = match dict_get "fontsize"
            (default [] (Some [("weight", PStr "bold"); ("fontsize", PInt 8)])) with
    | Some v => Some v
    | None => if String.eqb "fontsize" "fontsize" then Some (PInt 11) else None
    end.
Proof.
  apply (init_fontdict_spec (Some [("weight", PStr "bold"); ("fontsize", PInt 8)])
           "fontsize").
  cbn. apply NoDup_cons. split.
  - intros H. apply list_elem_of_singleton in H. discriminate.
  - apply NoDup_singleton.
Defined.

(** ** Coverage of the fragments *)

(** What the pass puts in place of a feature covers, on the circle, the
    positions of the feature but the one at the cut: a feature cut at the
    origin has its positions below 0 moved up by the sequence length and
    loses position [-1]; a feature cut at the end has its positions from
    the sequence length on moved down by it and loses position
    [sequence_length - 1]. *)
Theorem split_overflowing_coverage (r : GraphicRecord.t) :
  GraphicRecord.features (fst (GraphicRecord.split_overflowing_features_circularly r))
  = concat (map (split_one (GraphicRecord.sequence_length r)) (GraphicRecord.features r)) /\
  (forall (n : Z) (f : GraphicFeature.t),
     GraphicFeature.start f < 0 < GraphicFeature.end_ f ->
     exists f1 f2, split_one n f = [f1; f2] /\
       forall z, covers f z <->
                 (z < 0 /\ covers f1 (z + n)) \/ z = -1 \/ (0 <= z /\ covers f2 z)) /\
  (forall (n : Z) (f : GraphicFeature.t),
     ~ GraphicFeature.start f < 0 < GraphicFeature.end_ f ->
     GraphicFeature.start f < n < GraphicFeature.end_ f ->
     exists f1 f2, split_one n f = [f1; f2] /\
       forall z, covers f z <->
                 (z < n /\ covers f1 z) \/ z = n - 1 \/ (n <= z /\ covers f2 (z - n))).
Proof.
  split; [apply split_features|]. split.
  - intros n f H. unfold split_one.
    destruct (Z.ltb_spec (GraphicFeature.start f) 0),
             (Z.ltb_spec 0 (GraphicFeature.end_ f)); try lia. cbn [andb].
    eexists _, _. split; [reflexivity|].
    intros z. unfold covers. cbn. lia.
  - intros n f Hn H. unfold split_one.
    destruct (Z.ltb_spec (GraphicFeature.start f) 0),
             (Z.ltb_spec 0 (GraphicFeature.end_ f)); try lia; cbn [andb];
      (destruct (Z.ltb_spec (GraphicFeature.start f) n),
                (Z.ltb_spec n (GraphicFeature.end_ f)); try lia; cbn [andb];
       eexists _, _; (split; [reflexivity|]);
       intros z; unfold covers; cbn; lia).
Qed.

Lemma split_overflowing_coverage_witness :
  exists f1 f2,
    split_one 50 (GraphicFeature.init (-20) 2 (Some 1) (Some "c")) = [f1; f2] /\
    forall z, covers (GraphicFeature.init (-20) 2 (Some 1) (Some "c")) z <->
              (z < 0 /\ covers f1 (z + 50)) \/ z = -1 \/ (0 <= z /\ covers f2 z).
Proof.
  apply (split_overflowing_coverage test_split_record). simpl. lia.
Defined.
